(** * CPU-scheduling drivers of [schedulers.go]: a shallow embedding

    The three implemented drivers ([FCFSSchedule], [SJFSchedule] and
    [SJFPrioritySchedule]) and their helpers ([findShortestJob],
    [removeProcess]) are transcribed from the Go source, statement by
    statement.  Go's [int64]/[int] are integers in [Z] with two's-complement
    wrap-around written out, [float64] is Rocq's primitive binary64 float,
    slices of result rows are lists updated by index, and the slices that
    [SJFPrioritySchedule] aliases through [&waiting[0]] live in an explicit
    heap of backing arrays. *)

From Stdlib Require Import ZArith Lia Floats String.
From Stdlib Require Import Sorting.Permutation Sorting.Sorted.
From stdpp Require Import base list.

Open Scope Z_scope.

(** ** Machine integers and floats *)

Module Int64.

Definition min_int : Z := - 2 ^ 63.
Definition max_int : Z := 2 ^ 63 - 1.

(** Two's-complement reduction of a mathematical integer to [int64]. *)
Definition wrap (z : Z) : Z := (z + 2 ^ 63) mod 2 ^ 64 - 2 ^ 63.

Definition in_range (z : Z) : Prop := min_int <= z <= max_int.

Definition add (a b : Z) : Z := wrap (a + b).
Definition sub (a b : Z) : Z := wrap (a - b).

(** Go's conversion [float64(x)] of an integer: the nearest binary64,
    ties to even. *)
Definition to_float64 (z : Z) : float :=
  SF2Prim (binary_normalize prec emax z 0 false).

End Int64.

(** ** The data model (lines 9-21)

    [ProcessID] is declared [string] in the source, but [SJFSchedule] indexes
    its table with [process.ProcessID-1] (line 124), which is integer
    arithmetic on the id.  The embedding therefore reads the id as the
    [int64] that expression needs; [FCFSSchedule] only passes the id
    through. *)

Record Process : Type := mkProcess {
  ProcessID : Z;
  ArrivalTime : Z;
  BurstDuration : Z;
  Priority : Z
}.

Record TimeSlice : Type := mkTimeSlice {
  PID : Z;
  Start : Z;
  Stop : Z
}.

(** One row of the [schedule] table.  The source builds the row as seven
    strings, each [fmt.Sprint] of the value kept here, in this order. *)
Record Row : Type := mkRow {
  row_id : Z;
  row_priority : Z;
  row_burst : Z;
  row_arrival : Z;
  row_waiting : Z;
  row_turnaround : Z;
  row_completion : Z
}.

(** What a driver hands to [outputGantt] and [outputSchedule]: the timeline,
    the table ([None] is a row left [nil] by [make]) and the three
    statistics. *)
Record Output : Type := mkOutput {
  out_gantt : list TimeSlice;
  out_schedule : list (option Row);
  out_aveWait : float;
  out_aveTurnaround : float;
  out_aveThroughput : float
}.

(** ** FCFSSchedule (lines 29-79) *)

Module FCFS.

(** The local variables of lines 30-38. *)
Record vars : Type := mkVars {
  serviceTime : Z;
  totalWait : float;
  totalTurnaround : float;
  lastCompletion : float;
  waitingTime : Z;
  schedule : list (option Row);
  gantt : list TimeSlice
}.

Definition init (n : nat) : vars :=
  {| serviceTime := 0;
     totalWait := 0%float;
     totalTurnaround := 0%float;
     lastCompletion := 0%float;
     waitingTime := 0;
     schedule := replicate n None;
     gantt := [] |}.

(** One iteration of the loop of lines 39-69, for [processes[i] = p].
    [schedule] has [len(processes)] rows, so [schedule[i]] is in range. *)
Definition body (i : nat) (p : Process) (v : vars) : vars :=
  let waitingTime' :=
    if 0 <? ArrivalTime p
    then Int64.sub (serviceTime v) (ArrivalTime p)
    else waitingTime v in
  let totalWait' := (totalWait v + Int64.to_float64 waitingTime')%float in
  let start := Int64.add waitingTime' (ArrivalTime p) in
  let turnaround := Int64.add (BurstDuration p) waitingTime' in
  let totalTurnaround' :=
    (totalTurnaround v + Int64.to_float64 turnaround)%float in
  let completion :=
    Int64.add (Int64.add (BurstDuration p) (ArrivalTime p)) waitingTime' in
  let lastCompletion' := Int64.to_float64 completion in
  let schedule' :=
    <[ i := Some (mkRow (ProcessID p) (Priority p) (BurstDuration p)
                        (ArrivalTime p) waitingTime' turnaround completion) ]>
      (schedule v) in
  let serviceTime' := Int64.add (serviceTime v) (BurstDuration p) in
  {| serviceTime := serviceTime';
     totalWait := totalWait';
     totalTurnaround := totalTurnaround';
     lastCompletion := lastCompletion';
     waitingTime := waitingTime';
     schedule := schedule';
     gantt := gantt v ++ [mkTimeSlice (ProcessID p) start serviceTime'] |}.

(** [for i := range processes], entered at index [i] with the processes
    from [i] on still to visit. *)
Fixpoint loop (i : nat) (rest : list Process) (v : vars) : vars :=
  match rest with
  | [] => v
  | p :: rest' => loop (S i) rest' (body i p v)
  end.

(** Lines 71-78. *)
Definition finish (n : nat) (v : vars) : Output :=
  let count := Int64.to_float64 (Z.of_nat n) in
  {| out_gantt := gantt v;
     out_schedule := schedule v;
     out_aveWait := (totalWait v / count)%float;
     out_aveTurnaround := (totalTurnaround v / count)%float;
     out_aveThroughput := (count / lastCompletion v)%float |}.

End FCFS.

Definition FCFSSchedule (processes : list Process) : Output :=
  FCFS.finish (length processes)
    (FCFS.loop 0 processes (FCFS.init (length processes))).

(** ** SJFSchedule and its helpers (lines 81-174) *)

(** A statement that indexes a slice either succeeds or panics with
    "index out of range". *)
Inductive result (A : Type) : Type :=
  | Ok (a : A)
  | Panic.
Arguments Ok {A} a.
Arguments Panic {A}.

(** Lines 93-95. *)
Definition byArrivalTime (p1 p2 : Process) : bool :=
  ArrivalTime p1 <? ArrivalTime p2.

(** [sort.SliceStable(s, less)]: the stable sort, that is, the sorted
    arrangement in which elements that [less] does not order keep their
    relative order.  It is computed here by insertion from the right: an
    element goes in front of the sorted rest up to the first element that is
    not [less] than it. *)
Section SliceStable.
Context {A : Type} (less : A -> A -> bool).

Fixpoint stable_insert (x : A) (l : list A) : list A :=
  match l with
  | [] => [x]
  | y :: l' => if less y x then y :: stable_insert x l' else x :: y :: l'
  end.

Fixpoint SliceStable (l : list A) : list A :=
  match l with
  | [] => []
  | x :: l' => stable_insert x (SliceStable l')
  end.
End SliceStable.

(** Lines 153-164.  [shortest] is the candidate so far; the scan stops at
    the first process that has not arrived.  The Go function returns a
    pointer into [remaining], which the caller dereferences at once
    ([process := *next]), so the embedding returns the value. *)
Fixpoint findShortestJob_scan (shortest : option Process)
    (remaining : list Process) (serviceTime : Z) : option Process :=
  match remaining with
  | [] => shortest
  | r :: rest =>
      if serviceTime <? ArrivalTime r then shortest
      else
        let shortest' :=
          match shortest with
          | None => Some r
          | Some s => if BurstDuration r <? BurstDuration s then Some r else Some s
          end in
        findShortestJob_scan shortest' rest serviceTime
  end.

Definition findShortestJob (remaining : list Process) (serviceTime : Z)
    : option Process :=
  findShortestJob_scan None remaining serviceTime.

(** Lines 166-174. *)
Definition removeProcess (processes : list Process) (process : Process)
    : list Process :=
  filter (fun p => ProcessID p ≠ ProcessID process) processes.

Module SJF.

(** The local variables of lines 82-91. *)
Record vars : Type := mkVars {
  serviceTime : Z;
  totalWait : float;
  totalTurnaround : float;
  lastCompletion : float;
  schedule : list (option Row);
  gantt : list TimeSlice;
  remaining : list Process
}.

(** Lines 82-97. *)
Definition init (processes : list Process) : vars :=
  {| serviceTime := 0;
     totalWait := 0%float;
     totalTurnaround := 0%float;
     lastCompletion := 0%float;
     schedule := replicate (length processes) None;
     gantt := [];
     remaining := SliceStable byArrivalTime processes |}.

(** The table index of line 124 and its bounds check. *)
Definition row_index (process : Process) : Z :=
  Int64.sub (ProcessID process) 1.

Definition index_ok (idx : Z) (n : nat) : bool :=
  (0 <=? idx) && (idx <? Z.of_nat n).

(** Lines 107-140: the dispatch of [process]. *)
Definition dispatch (process : Process) (v : vars) : result vars :=
  let remaining' := removeProcess (remaining v) process in
  let waitingTime :=
    let w := Int64.sub (serviceTime v) (ArrivalTime process) in
    if w <? 0 then 0 else w in
  let totalWait' := (totalWait v + Int64.to_float64 waitingTime)%float in
  let start := serviceTime v in
  let turnaround := Int64.add (BurstDuration process) waitingTime in
  let totalTurnaround' :=
    (totalTurnaround v + Int64.to_float64 turnaround)%float in
  let completion := Int64.add (BurstDuration process) (serviceTime v) in
  let lastCompletion' := Int64.to_float64 completion in
  let idx := row_index process in
  if index_ok idx (length (schedule v)) then
    Ok {| serviceTime := Int64.add (serviceTime v) (BurstDuration process);
          totalWait := totalWait';
          totalTurnaround := totalTurnaround';
          lastCompletion := lastCompletion';
          schedule :=
            <[ Z.to_nat idx :=
                 Some (mkRow (ProcessID process) (Priority process)
                             (BurstDuration process) (ArrivalTime process)
                             waitingTime turnaround completion) ]>
              (schedule v);
          gantt :=
            gantt v ++ [mkTimeSlice (ProcessID process) start completion];
          remaining := remaining' |}
  else Panic.

(** Lines 100-105: an idle tick. *)
Definition idle (v : vars) : vars :=
  {| serviceTime := Int64.add (serviceTime v) 1;
     totalWait := totalWait v;
     totalTurnaround := totalTurnaround v;
     lastCompletion := lastCompletion v;
     schedule := schedule v;
     gantt := gantt v;
     remaining := remaining v |}.

(** One iteration of the loop of lines 99-141. *)
Definition body (v : vars) : result vars :=
  match findShortestJob (remaining v) (serviceTime v) with
  | None => Ok (idle v)
  | Some process => dispatch process v
  end.

(** [for len(remaining) > 0 { ... }], with at most [fuel] iterations:
    [None] when the fuel runs out before the loop ends. *)
Fixpoint loop (fuel : nat) (v : vars) : option (result vars) :=
  match remaining v with
  | [] => Some (Ok v)
  | _ :: _ =>
      match fuel with
      | O => None
      | S fuel' =>
          match body v with
          | Panic => Some Panic
          | Ok v' => loop fuel' v'
          end
      end
  end.

(** Lines 143-150. *)
Definition finish (n : nat) (v : vars) : Output :=
  let count := Int64.to_float64 (Z.of_nat n) in
  {| out_gantt := gantt v;
     out_schedule := schedule v;
     out_aveWait := (totalWait v / count)%float;
     out_aveTurnaround := (totalTurnaround v / count)%float;
     out_aveThroughput := (count / lastCompletion v)%float |}.

End SJF.

Definition SJFSchedule (fuel : nat) (processes : list Process)
    : option (result Output) :=
  match SJF.loop fuel (SJF.init processes) with
  | None => None
  | Some Panic => Some Panic
  | Some (Ok v) => Some (Ok (SJF.finish (length processes) v))
  end.

(** ** SJFPrioritySchedule (lines 176-229) *)

Module SJFP.

(** Lines 176-184.  The fields are Go [int]s, 64 bits wide on the targets
    of the program, so they wrap like [int64]. *)
Record Process1 : Type := mkProcess1 {
  Name : string;
  Burst : Z;
  Arrival : Z;
  Priority : Z;
  Completed : bool;
  Turnaround : Z;
  Waiting : Z
}.

(** The zero value of the struct, which fills freshly allocated arrays. *)
Definition zero : Process1 := mkProcess1 EmptyString 0 0 0 false 0 0.

(** *** Slices over a heap of backing arrays

    [append], [sort.Slice] and writes through [active] act on backing
    arrays that slices and pointers share.  A heap is the list of the
    arrays allocated so far; block 0 is the empty array behind a [nil]
    slice. *)
Abbreviation array := (list Process1).
Abbreviation heap := (list (list Process1)).

Record slice : Type := mkSlice {
  s_blk : nat;
  s_off : nat;
  s_len : nat;
  s_cap : nat
}.

Record pointer : Type := mkPointer {
  p_blk : nat;
  p_idx : nat
}.

Definition nil_slice : slice := mkSlice 0 0 0 0.

(** [*p] and [*p = x].  Go panics on a nil or dangling pointer; the driver
    never follows one (see [SJFP_inv] below), and the embedding reads the
    zero value and writes nothing there. *)
Definition load (h : heap) (p : pointer) : Process1 :=
  default zero (h !! p_blk p ≫= fun a => a !! p_idx p).

Definition store (h : heap) (p : pointer) (x : Process1) : heap :=
  alter (fun a => <[ p_idx p := x ]> a) (p_blk p) h.

(** [&s[i]] and [s[1:]]. *)
Definition at_index (s : slice) (i : nat) : pointer :=
  mkPointer (s_blk s) (s_off s + i).

Definition tail (s : slice) : slice :=
  mkSlice (s_blk s) (S (s_off s)) (s_len s - 1) (s_cap s - 1).

(** The elements [s[0], ..., s[len(s)-1]]. *)
Definition elems (h : heap) (s : slice) : list Process1 :=
  take (s_len s) (drop (s_off s) (default [] (h !! s_blk s))).

(** What the Go runtime and library contribute: the capacity that
    [append] gives a full slice of a given capacity when it moves it, and
    [sort.Slice] with the comparison of lines 200-202, which promises a
    sorted rearrangement and no stability. *)
Class GoRuntime : Type := {
  growslice : nat -> nat;
  growslice_grows : forall c : nat, (c < growslice c)%nat;
  sort_Slice : list Process1 -> list Process1;
  sort_Slice_perm : forall l, Permutation (sort_Slice l) l;
  sort_Slice_sorted :
    forall l, StronglySorted (fun a b => Burst a <= Burst b) (sort_Slice l)
}.

Section Driver.
Context {rt : GoRuntime}.

(** [append(s, x)]: in place while capacity lasts, otherwise into a
    fresh array that receives a copy of the elements. *)
Definition append (h : heap) (s : slice) (x : Process1) : heap * slice :=
  if (s_len s <? s_cap s)%nat then
    (store h (at_index s (s_len s)) x,
     mkSlice (s_blk s) (s_off s) (S (s_len s)) (s_cap s))
  else
    let c := growslice (s_cap s) in
    (h ++ [elems h s ++ x :: replicate (c - S (s_len s)) zero],
     mkSlice (length h) 0 (S (s_len s)) c).

(** [sort.Slice(s, ...)] rearranges the elements of [s] where they
    lie. *)
Definition sort_in_place (h : heap) (s : slice) : heap :=
  alter (fun a =>
           take (s_off s) a
           ++ sort_Slice (take (s_len s) (drop (s_off s) a))
           ++ drop (s_off s + s_len s) a)
        (s_blk s) h.

(** The local variables of lines 189-192, with the heap. *)
Record vars : Type := mkVars {
  mem : heap;
  completed : Z;
  currentTime : Z;
  waiting : slice;
  active : option pointer
}.

(** Lines 195-199. *)
Definition arrive_one (processes : slice) (v : vars) (i : nat) : vars :=
  let p := load (mem v) (at_index processes i) in
  if negb (Completed p) && (Arrival p <=? currentTime v) then
    let hw := append (mem v) (waiting v) p in
    mkVars hw.1 (completed v) (currentTime v) hw.2 (active v)
  else v.

Definition arrive (processes : slice) (v : vars) : vars :=
  foldl (arrive_one processes) v (seq 0 (s_len processes)).

(** Lines 200-202. *)
Definition sort_waiting (v : vars) : vars :=
  mkVars (sort_in_place (mem v) (waiting v))
         (completed v) (currentTime v) (waiting v) (active v).

(** Lines 203-206. *)
Definition select (v : vars) : vars :=
  match active v with
  | None =>
      if (0 <? s_len (waiting v))%nat then
        mkVars (mem v) (completed v) (currentTime v)
               (tail (waiting v)) (Some (at_index (waiting v) 0))
      else v
  | Some _ => v
  end.

(** Lines 207-216. *)
Definition run_active (v : vars) : vars :=
  match active v with
  | None => v
  | Some a =>
      let p := load (mem v) a in
      let burst := Int64.sub (Burst p) 1 in
      if burst =? 0 then
        let turnaround :=
          Int64.sub (Int64.add (currentTime v) 1) (Arrival p) in
        let waitingT := Int64.sub turnaround (Priority p) in
        mkVars
          (store (mem v) a
             (mkProcess1 (Name p) burst (Arrival p) (Priority p)
                         true turnaround waitingT))
          (Int64.add (completed v) 1) (currentTime v) (waiting v) None
      else
        mkVars
          (store (mem v) a
             (mkProcess1 (Name p) burst (Arrival p) (Priority p)
                         (Completed p) (Turnaround p) (Waiting p)))
          (completed v) (currentTime v) (waiting v) (active v)
  end.

(** Line 217. *)
Definition advance (v : vars) : vars :=
  mkVars (mem v) (completed v) (Int64.add (currentTime v) 1)
         (waiting v) (active v).

(** One iteration of the loop of lines 194-218. *)
Definition tick (processes : slice) (v : vars) : vars :=
  advance (run_active (select (sort_waiting (arrive processes v)))).

(** [for completed < len(processes) { ... }], with at most [fuel]
    iterations. *)
Fixpoint loop (fuel : nat) (processes : slice) (v : vars) : option vars :=
  if completed v <? Z.of_nat (s_len processes) then
    match fuel with
    | O => None
    | S fuel' => loop fuel' processes (tick processes v)
    end
  else Some v.

(** Lines 220-224. *)
Definition totals (processes : slice) (h : heap) : Z * Z :=
  foldl (fun acc i =>
           let p := load h (at_index processes i) in
           (Int64.add acc.1 (Turnaround p), Int64.add acc.2 (Waiting p)))
        (0, 0) (seq 0 (s_len processes)).

(** The three numbers printed by lines 226-228. *)
Record Report : Type := mkReport {
  aveTurnaround : float;
  aveWaiting : float;
  throughput : float
}.

Definition finish (processes : slice) (v : vars) : Report :=
  let t := totals processes (mem v) in
  let n := Int64.to_float64 (Z.of_nat (s_len processes)) in
  {| aveTurnaround := (Int64.to_float64 t.1 / n)%float;
     aveWaiting := (Int64.to_float64 t.2 / n)%float;
     throughput := (n / Int64.to_float64 (currentTime v))%float |}.

(** The call: the caller's array is block 1 of the heap and
    [processes] is the slice over all of it. *)
Definition caller_heap (ps : list Process1) : heap := [[]; ps].

Definition caller_slice (ps : list Process1) : slice :=
  mkSlice 1 0 (length ps) (length ps).

Definition init (ps : list Process1) : vars :=
  mkVars (caller_heap ps) 0 0 nil_slice None.

Definition run (fuel : nat) (ps : list Process1) : option vars :=
  loop fuel (caller_slice ps) (init ps).

End Driver.

End SJFP.

Definition SJFPrioritySchedule `{SJFP.GoRuntime} (fuel : nat)
    (ps : list SJFP.Process1) : option SJFP.Report :=
  SJFP.finish (SJFP.caller_slice ps) <$> SJFP.run fuel ps.

(** An instance of the runtime: insertion sort, which is what [sort.Slice]
    runs on slices of at most twelve elements, and doubling growth. *)
Definition by_Burst (a b : SJFP.Process1) : bool := SJFP.Burst a <? SJFP.Burst b.

Definition insertion_sort (l : list SJFP.Process1) : list SJFP.Process1 :=
  SliceStable by_Burst l.

Definition double_cap (c : nat) : nat := Nat.max 1 (2 * c).

(** ** Facts about the stable sort *)

Section SliceStable_facts.
Context {A : Type} (key : A -> Z).

Let less (a b : A) : bool := key a <? key b.

Lemma stable_insert_perm (x : A) (l : list A) :
  Permutation (stable_insert less x l) (x :: l).
Proof.
  induction l as [|y l IH]; simpl; [reflexivity|].
  destruct (less y x); [|reflexivity].
  rewrite IH. apply perm_swap.
Qed.

Lemma SliceStable_perm (l : list A) : Permutation (SliceStable less l) l.
Proof.
  induction l as [|x l IH]; simpl; [reflexivity|].
  rewrite stable_insert_perm. by constructor.
Qed.

Lemma stable_insert_sorted (x : A) (l : list A) :
  StronglySorted (fun a b => key a <= key b) l ->
  StronglySorted (fun a b => key a <= key b) (stable_insert less x l).
Proof.
  induction 1 as [|y l Hl IH Hy]; simpl.
  - repeat constructor.
  - unfold less at 1. destruct (Z.ltb_spec (key y) (key x)) as [Hlt|Hge].
    + constructor; [exact IH|].
      eapply Permutation_Forall; [symmetry; apply stable_insert_perm|].
      constructor; [lia | exact Hy].
    + constructor; [by constructor|].
      constructor; [exact Hge|].
      eapply Forall_impl; [exact Hy|]. simpl. intros; lia.
Qed.

Lemma SliceStable_sorted (l : list A) :
  StronglySorted (fun a b => key a <= key b) (SliceStable less l).
Proof.
  induction l as [|x l IH]; simpl; [constructor|].
  by apply stable_insert_sorted.
Qed.
End SliceStable_facts.

Lemma double_cap_grows (c : nat) : (c < double_cap c)%nat.
Proof. unfold double_cap. lia. Qed.

#[export] Instance small_runtime : SJFP.GoRuntime :=
  {| SJFP.growslice := double_cap;
     SJFP.growslice_grows := double_cap_grows;
     SJFP.sort_Slice := insertion_sort;
     SJFP.sort_Slice_perm := SliceStable_perm SJFP.Burst;
     SJFP.sort_Slice_sorted := SliceStable_sorted SJFP.Burst |}.

(** The end-to-end example of the specification for SJF: the batch listed
    as process 2 (burst 3), then process 1 (burst 5), both arriving at 0. *)
Example SJFSchedule_spec_example :
  SJFSchedule 2 [mkProcess 2 0 3 1; mkProcess 1 0 5 1]
  = Some (Ok {| out_gantt := [mkTimeSlice 2 0 3; mkTimeSlice 1 3 8];
                out_schedule := [Some (mkRow 1 1 5 0 3 8 8);
                                 Some (mkRow 2 1 3 0 0 3 3)];
                out_aveWait := 1.5%float;
                out_aveTurnaround := 5.5%float;
                out_aveThroughput := 0.25%float |}).
Proof. reflexivity. Qed.

(** Fuel only bounds the number of iterations: more of it does not change
    a result. *)
Lemma SJF_loop_more_fuel (fuel fuel' : nat) (v : SJF.vars)
    (r : result SJF.vars) :
  SJF.loop fuel v = Some r -> (fuel <= fuel')%nat -> SJF.loop fuel' v = Some r.
Proof.
  revert fuel' v. induction fuel as [|fuel IH]; intros fuel' v; simpl.
  - destruct (SJF.remaining v) eqn:Hrem; [|done]. intros [= <-] _.
    destruct fuel'; simpl; by rewrite Hrem.
  - destruct (SJF.remaining v) eqn:Hrem.
    + intros [= <-] _. destruct fuel'; simpl; by rewrite Hrem.
    + intros Hloop Hle. destruct fuel' as [|fuel']; [lia|]. simpl.
      rewrite Hrem. destruct (SJF.body v); [|done]. apply IH; [done|lia].
Qed.

Lemma SJFP_loop_more_fuel `{SJFP.GoRuntime} (fuel fuel' : nat)
    (processes : SJFP.slice) (v v' : SJFP.vars) :
  SJFP.loop fuel processes v = Some v' -> (fuel <= fuel')%nat ->
  SJFP.loop fuel' processes v = Some v'.
Proof.
  revert fuel' v. induction fuel as [|fuel IH]; intros fuel' v; simpl.
  - destruct (_ <? _) eqn:Hcond; [done|]. intros [= <-] _.
    destruct fuel'; simpl; by rewrite Hcond.
  - destruct (_ <? _) eqn:Hcond.
    + intros Hloop Hle. destruct fuel' as [|fuel']; [lia|]. simpl.
      rewrite Hcond. apply IH; [done|lia].
    + intros [= <-] _. destruct fuel'; simpl; by rewrite Hcond.
Qed.

(** * Properties *)

(** ** Wrap-around arithmetic *)

Lemma wrap_in_range (z : Z) : Int64.in_range (Int64.wrap z).
Proof.
  unfold Int64.in_range, Int64.wrap, Int64.min_int, Int64.max_int.
  pose proof (Z.mod_pos_bound (z + 2 ^ 63) (2 ^ 64)). lia.
Qed.

Lemma wrap_small (z : Z) : Int64.in_range z -> Int64.wrap z = z.
Proof.
  unfold Int64.in_range, Int64.wrap, Int64.min_int, Int64.max_int. intros Hz.
  rewrite Z.mod_small; lia.
Qed.

Lemma wrap_add_l (x y : Z) : Int64.wrap (Int64.wrap x + y) = Int64.wrap (x + y).
Proof.
  unfold Int64.wrap. f_equal.
  replace ((x + 2 ^ 63) mod 2 ^ 64 - 2 ^ 63 + y + 2 ^ 63)
    with ((x + 2 ^ 63) mod 2 ^ 64 + y) by lia.
  rewrite Zplus_mod_idemp_l. f_equal. lia.
Qed.

Lemma wrap_add_r (x y : Z) : Int64.wrap (x + Int64.wrap y) = Int64.wrap (x + y).
Proof. rewrite (Z.add_comm x), wrap_add_l. f_equal. lia. Qed.

Lemma wrap_sub_l (x y : Z) : Int64.wrap (Int64.wrap x - y) = Int64.wrap (x - y).
Proof. unfold Z.sub. apply wrap_add_l. Qed.

(** In [int64] arithmetic [(b + w) = ((b + a) + w) - a], overflow or not. *)
Lemma sub_add_add_cancel (a b w : Z) :
  Int64.sub (Int64.add (Int64.add b a) w) a = Int64.add b w.
Proof.
  unfold Int64.sub, Int64.add.
  rewrite wrap_sub_l, <- Z.add_sub_assoc, Z.add_comm, (Z.add_comm _ a).
  rewrite wrap_add_r. f_equal. lia.
Qed.

(** ** FCFSSchedule *)

(** The row [FCFS.body] writes is the row of the process it visits. *)
Definition row_of (p : Process) (r : Row) : Prop :=
  row_id r = ProcessID p /\ row_priority r = Priority p /\
  row_burst r = BurstDuration p /\ row_arrival r = ArrivalTime p.

Lemma FCFS_body_length (i : nat) (p : Process) (v : FCFS.vars) :
  length (FCFS.schedule (FCFS.body i p v)) = length (FCFS.schedule v).
Proof. simpl. apply length_insert. Qed.

Lemma FCFS_loop_length (rest : list Process) (i : nat) (v : FCFS.vars) :
  length (FCFS.schedule (FCFS.loop i rest v)) = length (FCFS.schedule v).
Proof.
  revert i v. induction rest as [|p rest IH]; intros i v; simpl; [done|].
  by rewrite IH, FCFS_body_length.
Qed.

Lemma FCFS_loop_before (rest : list Process) (i j : nat) (v : FCFS.vars) :
  (j < i)%nat ->
  FCFS.schedule (FCFS.loop i rest v) !! j = FCFS.schedule v !! j.
Proof.
  revert i v. induction rest as [|p rest IH]; intros i v Hj; simpl; [done|].
  rewrite IH by lia. simpl. apply list_lookup_insert_ne. lia.
Qed.

Lemma FCFS_loop_row (rest : list Process) (i k : nat) (p : Process)
    (v : FCFS.vars) :
  rest !! k = Some p ->
  (i + length rest <= length (FCFS.schedule v))%nat ->
  exists r,
    FCFS.schedule (FCFS.loop i rest v) !! (i + k)%nat = Some (Some r) /\
    row_of p r /\
    row_turnaround r = Int64.add (BurstDuration p) (row_waiting r) /\
    row_completion r =
      Int64.add (Int64.add (BurstDuration p) (ArrivalTime p)) (row_waiting r).
Proof.
  revert i k v. induction rest as [|q rest IH]; intros i k v Hk Hlen; [done|].
  destruct k as [|k]; simpl in *.
  - injection Hk as ->. rewrite Nat.add_0_r, FCFS_loop_before by lia.
    eexists. split.
    + simpl. apply list_lookup_insert_eq. lia.
    + by repeat split.
  - replace (i + S k)%nat with (S i + k)%nat by lia.
    apply IH; [done|]. rewrite FCFS_body_length. lia.
Qed.

(** ** findShortestJob and removeProcess *)

(** The processes [findShortestJob] looks at: those in front of the first
    one that has not arrived. *)
Fixpoint scanned (remaining : list Process) (serviceTime : Z) : list Process :=
  match remaining with
  | [] => []
  | r :: rest =>
      if serviceTime <? ArrivalTime r then [] else r :: scanned rest serviceTime
  end.

Definition arrived (serviceTime : Z) (p : Process) : Prop :=
  ArrivalTime p <= serviceTime.

#[local] Instance arrived_dec t p : Decision (arrived t p).
Proof. unfold arrived. apply _. Defined.

Lemma scanned_prefix (remaining : list Process) (t : Z) :
  exists rest, remaining = scanned remaining t ++ rest.
Proof.
  induction remaining as [|r l [rest IH]]; simpl; [by exists []|].
  destruct (t <? ArrivalTime r); [by eexists|].
  exists rest. simpl. by rewrite <- IH.
Qed.

Lemma scanned_arrived (remaining : list Process) (t : Z) :
  Forall (arrived t) (scanned remaining t).
Proof.
  induction remaining as [|r l IH]; simpl; [constructor|].
  destruct (Z.ltb_spec t (ArrivalTime r)); constructor; [|done].
  unfold arrived. lia.
Qed.


Lemma scan_candidate (remaining : list Process) (s p : Process) (t : Z) :
  findShortestJob_scan (Some s) remaining t = Some p ->
  (p = s /\
   Forall (fun q => BurstDuration s <= BurstDuration q) (scanned remaining t))
  \/
  (exists l1 l2,
     scanned remaining t = l1 ++ p :: l2 /\
     BurstDuration p < BurstDuration s /\
     Forall (fun q => BurstDuration p < BurstDuration q) l1 /\
     Forall (fun q => BurstDuration p <= BurstDuration q) l2).
Proof.
  revert s. induction remaining as [|r l IH]; intros s; simpl.
  - intros [= ->]. left. by split.
  - destruct (t <? ArrivalTime r); [intros [= ->]; left; by split|].
    destruct (Z.ltb_spec (BurstDuration r) (BurstDuration s)) as [Hlt|Hge];
      intros Hscan; apply IH in Hscan as [[-> Hall]|(l1 & l2 & -> & Hp & H1 & H2)].
    + right. exists [], (scanned l t). repeat split; [done|constructor|done].
    + right. exists (r :: l1), l2. repeat split; [lia| |done].
      constructor; [done|]. done.
    + left. split; [done|]. by constructor.
    + right. exists (r :: l1), l2. repeat split; [done| |done].
      constructor; [lia|done].
Qed.

Lemma findShortestJob_None (remaining : list Process) (t : Z) :
  findShortestJob remaining t = None <-> scanned remaining t = [].
Proof.
  unfold findShortestJob. destruct remaining as [|r l]; simpl; [done|].
  destruct (t <? ArrivalTime r); [done|]. split; [|done].
  intros Hscan. exfalso. clear -Hscan. revert r Hscan.
  induction l as [|q l IH]; intros r; simpl; [done|].
  destruct (t <? ArrivalTime q); [done|].
  destruct (BurstDuration q <? BurstDuration r); apply IH.
Qed.

(** The selected process is the first one of least burst among the scanned
    ones. *)
Lemma findShortestJob_Some (remaining : list Process) (p : Process) (t : Z) :
  findShortestJob remaining t = Some p ->
  exists l1 l2,
    scanned remaining t = l1 ++ p :: l2 /\
    Forall (fun q => BurstDuration p < BurstDuration q) l1 /\
    Forall (fun q => BurstDuration p <= BurstDuration q) l2.
Proof.
  unfold findShortestJob. destruct remaining as [|r l]; simpl; [done|].
  destruct (t <? ArrivalTime r); [done|].
  intros [[-> Hall]|(l1 & l2 & -> & Hp & H1 & H2)]%scan_candidate.
  - exists [], (scanned l t). by repeat split.
  - exists (r :: l1), l2. repeat split; [|done]. by constructor.
Qed.

Lemma findShortestJob_elem (remaining : list Process) (p : Process) (t : Z) :
  findShortestJob remaining t = Some p -> p ∈ remaining /\ arrived t p.
Proof.
  intros (l1 & l2 & Hs & _)%findShortestJob_Some.
  destruct (scanned_prefix remaining t) as [rest Hrest].
  pose proof (scanned_arrived remaining t) as Harr.
  rewrite Hs in Hrest, Harr. split.
  - rewrite Hrest, !elem_of_app, elem_of_cons. tauto.
  - rewrite Forall_app, Forall_cons in Harr. tauto.
Qed.

Lemma removeProcess_elem (processes : list Process) (process q : Process) :
  q ∈ removeProcess processes process <->
  q ∈ processes /\ ProcessID q ≠ ProcessID process.
Proof. unfold removeProcess. rewrite list_elem_of_filter. tauto. Qed.

Lemma removeProcess_shorter (processes : list Process) (process : Process) :
  process ∈ processes ->
  (length (removeProcess processes process) < length processes)%nat.
Proof.
  intros Hin. unfold removeProcess.
  induction processes as [|q l IH]; [by apply elem_of_nil in Hin|].
  apply elem_of_cons in Hin as [<-|Hin].
  - rewrite filter_cons_False by tauto. simpl.
    pose proof (length_filter (fun p => ProcessID p ≠ ProcessID process) l). lia.
  - specialize (IH Hin). rewrite filter_cons. case_decide; simpl; lia.
Qed.

Lemma removeProcess_sorted (processes : list Process) (process : Process) :
  StronglySorted (fun a b => ArrivalTime a <= ArrivalTime b) processes ->
  StronglySorted (fun a b => ArrivalTime a <= ArrivalTime b)
    (removeProcess processes process).
Proof.
  unfold removeProcess. induction 1 as [|q l Hl IH Hq]; [constructor|].
  rewrite filter_cons. case_decide; [|done].
  constructor; [done|]. apply Forall_forall. intros x [_ Hx]%list_elem_of_filter.
  by eapply Forall_forall in Hq.
Qed.

(** ** SJFSchedule: what holds at every iteration *)

(** The fields of an input record hold [int64] values, and the length of a
    slice is an [int]. *)
Definition well_typed (p : Process) : Prop :=
  Int64.in_range (ProcessID p) /\ Int64.in_range (ArrivalTime p) /\
  Int64.in_range (BurstDuration p) /\ Int64.in_range (Priority p).

Definition int64_batch (ps : list Process) : Prop :=
  Forall well_typed ps /\ Z.of_nat (length ps) <= Int64.max_int.

(** The row [SJF.dispatch] writes for [p] when the clock shows [st]. *)
Definition SJF_row (p : Process) (st : Z) : Row :=
  let w := Int64.sub st (ArrivalTime p) in
  let waitingTime := if w <? 0 then 0 else w in
  mkRow (ProcessID p) (Priority p) (BurstDuration p) (ArrivalTime p)
        waitingTime
        (Int64.add (BurstDuration p) waitingTime)
        (Int64.add (BurstDuration p) st).

(** The states the loop of [SJFSchedule] passes through. *)
Inductive SJF_reachable (ps : list Process) : SJF.vars -> Prop :=
  | SJF_reach_init : SJF_reachable ps (SJF.init ps)
  | SJF_reach_step v v' :
      SJF_reachable ps v ->
      SJF.remaining v ≠ [] ->
      SJF.body v = Ok v' ->
      SJF_reachable ps v'.

Record SJF_inv (ps : list Process) (v : SJF.vars) : Prop := {
  inv_time : Int64.in_range (SJF.serviceTime v);
  inv_len : length (SJF.schedule v) = length ps;
  inv_sorted :
    StronglySorted (fun a b => ArrivalTime a <= ArrivalTime b) (SJF.remaining v);
  inv_sub : forall q, q ∈ SJF.remaining v -> q ∈ ps;
  inv_done :
    forall p, p ∈ ps ->
      p ∈ SJF.remaining v \/
      (SJF.index_ok (SJF.row_index p) (length ps) = true /\
       exists r,
         SJF.schedule v !! Z.to_nat (SJF.row_index p) = Some (Some r) /\
         row_id r = ProcessID p);
  inv_rows :
    forall i r, SJF.schedule v !! i = Some (Some r) ->
      exists p st,
        p ∈ ps /\ Int64.in_range st /\ arrived st p /\ r = SJF_row p st /\
        Z.of_nat i = SJF.row_index p /\
        (forall q, q ∈ SJF.remaining v -> ProcessID q ≠ ProcessID p)
}.

Lemma row_index_inj (p q : Process) :
  Int64.in_range (ProcessID p) -> Int64.in_range (ProcessID q) ->
  SJF.row_index p = SJF.row_index q -> ProcessID p = ProcessID q.
Proof.
  unfold SJF.row_index, Int64.sub, Int64.wrap, Int64.in_range,
    Int64.min_int, Int64.max_int.
  intros Hp Hq Heq.
  assert (Hmod : (ProcessID p - 1 + 2 ^ 63) mod 2 ^ 64
                 = (ProcessID q - 1 + 2 ^ 63) mod 2 ^ 64) by lia.
  clear Heq.
  destruct (Z.eq_dec (ProcessID p) (- 2 ^ 63)) as [Hpm|Hpm];
    destruct (Z.eq_dec (ProcessID q) (- 2 ^ 63)) as [Hqm|Hqm].
  - lia.
  - rewrite Hpm in Hmod.
    replace (- 2 ^ 63 - 1 + 2 ^ 63) with (-1) in Hmod by lia.
    rewrite (Z.mod_small (ProcessID q - 1 + 2 ^ 63)) in Hmod by lia.
    change ((-1) mod 2 ^ 64) with (2 ^ 64 - 1) in Hmod. lia.
  - rewrite Hqm in Hmod.
    replace (- 2 ^ 63 - 1 + 2 ^ 63) with (-1) in Hmod by lia.
    rewrite (Z.mod_small (ProcessID p - 1 + 2 ^ 63)) in Hmod by lia.
    change ((-1) mod 2 ^ 64) with (2 ^ 64 - 1) in Hmod. lia.
  - rewrite !Z.mod_small in Hmod by lia. lia.
Qed.

Lemma SJF_inv_init (ps : list Process) : SJF_inv ps (SJF.init ps).
Proof.
  split; simpl.
  - by vm_compute.
  - apply length_replicate.
  - apply (SliceStable_sorted ArrivalTime).
  - intros q Hq. by rewrite (SliceStable_perm ArrivalTime ps) in Hq.
  - intros p Hp. left. by rewrite (SliceStable_perm ArrivalTime ps).
  - intros i r Hr. apply lookup_replicate in Hr as [[=] _].
Qed.

Lemma SJF_inv_idle (ps : list Process) (v : SJF.vars) :
  SJF_inv ps v -> SJF_inv ps (SJF.idle v).
Proof.
  intros [Ht Hlen Hs Hsub Hd Hr]. split; simpl; try done.
  apply wrap_in_range.
Qed.

Lemma SJF_inv_dispatch (ps : list Process) (v v' : SJF.vars) (process : Process) :
  Forall well_typed ps ->
  SJF_inv ps v ->
  process ∈ SJF.remaining v ->
  arrived (SJF.serviceTime v) process ->
  SJF.dispatch process v = Ok v' ->
  SJF_inv ps v'.
Proof.
  intros Hwt [Ht Hlen Hs Hsub Hd Hr] Hin Harr Hdis.
  unfold SJF.dispatch in Hdis.
  destruct (SJF.index_ok _ _) eqn:Hok; [|done]. injection Hdis as <-.
  assert (Hidx : (Z.to_nat (SJF.row_index process) < length (SJF.schedule v))%nat).
  { unfold SJF.index_ok in Hok. lia. }
  assert (Hidx0 : 0 <= SJF.row_index process).
  { unfold SJF.index_ok in Hok. lia. }
  assert (Hwtp : forall q, q ∈ ps -> Int64.in_range (ProcessID q)).
  { intros q Hq. by eapply Forall_forall in Hwt as [? _]. }
  split; simpl.
  - apply wrap_in_range.
  - by rewrite length_insert.
  - by apply removeProcess_sorted.
  - intros q [Hq _]%removeProcess_elem. by apply Hsub.
  - intros p Hp.
    destruct (decide (ProcessID p = ProcessID process)) as [Heq|Hne].
    + right. assert (SJF.row_index p = SJF.row_index process) as ->.
      { unfold SJF.row_index. by rewrite Heq. }
      split; [by rewrite <- Hlen|].
      eexists. split; [by apply list_lookup_insert_eq|]. by simpl.
    + destruct (Hd p Hp) as [Hrem|[Hokp (r & Hr1 & Hr2)]].
      * left. by apply removeProcess_elem.
      * right. split; [done|]. exists r. split; [|done].
        rewrite list_lookup_insert_ne; [done|].
        intros Hcol. apply Hne. symmetry. apply row_index_inj; auto.
        unfold SJF.index_ok in Hokp. lia.
  - intros i r Hlook.
    destruct (decide (i = Z.to_nat (SJF.row_index process))) as [->|Hi].
    + rewrite list_lookup_insert_eq in Hlook by done.
      injection Hlook as <-. exists process, (SJF.serviceTime v).
      split; [by apply Hsub|]. split; [done|]. split; [done|].
      split; [done|]. split; [lia|].
      intros q [_ Hq]%removeProcess_elem. done.
    + rewrite list_lookup_insert_ne in Hlook by done.
      destruct (Hr i r Hlook) as (p & st & Hp & Hst & Hap & -> & Hip & Hfresh).
      exists p, st. do 5 (split; [done|]).
      intros q [Hq _]%removeProcess_elem. by apply Hfresh.
Qed.

Lemma SJF_inv_body (ps : list Process) (v v' : SJF.vars) :
  Forall well_typed ps -> SJF_inv ps v -> SJF.body v = Ok v' -> SJF_inv ps v'.
Proof.
  intros Hwt Hinv. unfold SJF.body.
  destruct (findShortestJob _ _) as [process|] eqn:Hfind.
  - apply findShortestJob_elem in Hfind as [Hin Harr].
    by apply SJF_inv_dispatch.
  - intros [= <-]. by apply SJF_inv_idle.
Qed.

Lemma SJF_inv_reachable (ps : list Process) (v : SJF.vars) :
  Forall well_typed ps -> SJF_reachable ps v -> SJF_inv ps v.
Proof.
  intros Hwt. induction 1 as [|v v' _ IH _ Hbody]; [apply SJF_inv_init|].
  by eapply SJF_inv_body.
Qed.

(** A finished loop ends in a reachable state with an empty pool. *)
Lemma SJF_loop_reachable (ps : list Process) (fuel : nat) (v v' : SJF.vars) :
  SJF_reachable ps v -> SJF.loop fuel v = Some (Ok v') ->
  SJF_reachable ps v' /\ SJF.remaining v' = [].
Proof.
  revert v. induction fuel as [|fuel IH]; intros v Hreach; simpl.
  - destruct (SJF.remaining v) eqn:Hrem; [|done]. intros [= <-]. by split.
  - destruct (SJF.remaining v) eqn:Hrem; [intros [= <-]; by split|].
    destruct (SJF.body v) as [v1|] eqn:Hbody; [|done].
    apply IH. eapply SJF_reach_step; [done| |done]. by rewrite Hrem.
Qed.


Lemma SJF_run_inv (ps : list Process) (fuel : nat) (v : SJF.vars) :
  Forall well_typed ps ->
  SJF.loop fuel (SJF.init ps) = Some (Ok v) ->
  SJF_inv ps v /\ SJF.remaining v = [].
Proof.
  intros Hwt Hloop.
  eapply SJF_loop_reachable in Hloop as [Hreach Hrem]; [|constructor].
  split; [by apply SJF_inv_reachable|done].
Qed.

Lemma SJF_loop_no_panic (ps : list Process) (fuel : nat) (v : SJF.vars) :
  Forall well_typed ps ->
  (forall p, p ∈ ps -> SJF.index_ok (SJF.row_index p) (length ps) = true) ->
  SJF_reachable ps v ->
  SJF.loop fuel v ≠ Some Panic.
Proof.
  intros Hwt Hids. revert v. induction fuel as [|fuel IH]; intros v Hreach; simpl.
  - by destruct (SJF.remaining v).
  - destruct (SJF.remaining v) eqn:Hrem; [done|].
    destruct (SJF.body v) as [v1|] eqn:Hbody.
    + apply IH. eapply SJF_reach_step; [done| |done]. by rewrite Hrem.
    + exfalso. unfold SJF.body in Hbody.
      destruct (findShortestJob _ _) as [process|] eqn:Hfind; [|done].
      apply findShortestJob_elem in Hfind as [Hin _].
      pose proof (SJF_inv_reachable ps v Hwt Hreach) as [_ Hlen _ Hsub _ _].
      unfold SJF.dispatch in Hbody.
      rewrite Hlen, (Hids process) in Hbody by auto. done.
Qed.

(** For an id that is an [int64], the index [id - 1] is in range exactly
    when the id is one of 1, ..., n. *)
Lemma index_ok_iff (p : Process) (n : nat) :
  Int64.in_range (ProcessID p) -> Z.of_nat n <= Int64.max_int ->
  SJF.index_ok (SJF.row_index p) n = true <->
  1 <= ProcessID p <= Z.of_nat n.
Proof.
  unfold SJF.index_ok, SJF.row_index, Int64.sub, Int64.in_range,
    Int64.min_int, Int64.max_int.
  intros Hp Hn. rewrite andb_true_iff, Z.leb_le, Z.ltb_lt.
  destruct (Z.eq_dec (ProcessID p) (- 2 ^ 63)) as [Hm|Hm].
  - rewrite Hm. change (Int64.wrap (- 2 ^ 63 - 1)) with (2 ^ 63 - 1). lia.
  - rewrite wrap_small
      by (unfold Int64.in_range, Int64.min_int, Int64.max_int; lia).
    lia.
Qed.

Lemma row_index_small (p : Process) (n : nat) :
  Int64.in_range (ProcessID p) -> Z.of_nat n <= Int64.max_int ->
  SJF.index_ok (SJF.row_index p) n = true ->
  SJF.row_index p = ProcessID p - 1.
Proof.
  intros Hp Hn Hok. pose proof Hok as Hid%index_ok_iff; [|done..].
  unfold SJF.row_index, Int64.sub. apply wrap_small.
  unfold Int64.in_range, Int64.min_int, Int64.max_int in *. lia.
Qed.

(** The ids of the batch are exactly the integers 1, ..., n. *)
Definition ids_1_to_n (ps : list Process) : Prop :=
  Permutation (map ProcessID ps) (map Z.of_nat (seq 1 (length ps))).

(** Row [i] of the table is the row of input process [i]. *)
Definition table_in_input_order (ps : list Process)
    (table : list (option Row)) : Prop :=
  forall i p, ps !! i = Some p ->
    exists r, table !! i = Some (Some r) /\ row_of p r.

(** ** Termination of the SJF loop *)

Definition SJF_clock_ok (v : SJF.vars) : Prop :=
  Int64.in_range (SJF.serviceTime v) /\
  Forall (fun p => ArrivalTime p <= Int64.max_int) (SJF.remaining v).

Lemma SJF_loop_S (fuel : nat) (v : SJF.vars) (r0 : Process)
    (rest : list Process) :
  SJF.remaining v = r0 :: rest ->
  SJF.loop (S fuel) v =
    match SJF.body v with
    | Panic => Some Panic
    | Ok v' => SJF.loop fuel v'
    end.
Proof. intros Hrem. simpl. by rewrite Hrem. Qed.

Lemma SJF_idle_steps (d : nat) (v : SJF.vars) (r0 : Process)
    (rest : list Process) :
  SJF_clock_ok v ->
  SJF.remaining v = r0 :: rest ->
  (Z.to_nat (ArrivalTime r0 - SJF.serviceTime v) <= d)%nat ->
  (forall v', SJF_clock_ok v' ->
     (length (SJF.remaining v') < length (SJF.remaining v))%nat ->
     exists fuel r, SJF.loop fuel v' = Some r) ->
  exists fuel r, SJF.loop fuel v = Some r.
Proof.
  revert v. induction d as [|d IH]; intros v [Ht Harr] Hrem Hgap Hless.
  all: destruct (findShortestJob (SJF.remaining v) (SJF.serviceTime v))
         as [process|] eqn:Hfind.
  all: try (pose proof (proj1 (findShortestJob_None _ _) Hfind) as Hscan;
            rewrite Hrem in Hscan; simpl in Hscan;
            destruct (Z.ltb_spec (SJF.serviceTime v) (ArrivalTime r0))
              as [Hlt|Hge]; [|done]).
  - destruct (SJF.dispatch process v) as [v'|] eqn:Hdis.
    + destruct (Hless v') as (fuel & r & Hloop).
      * unfold SJF.dispatch in Hdis. destruct (SJF.index_ok _ _); [|done].
        injection Hdis as <-. split; simpl; [apply wrap_in_range|].
        apply Forall_forall. intros q [Hq _]%removeProcess_elem.
        by eapply Forall_forall in Harr.
      * unfold SJF.dispatch in Hdis. destruct (SJF.index_ok _ _); [|done].
        injection Hdis as <-. simpl. apply removeProcess_shorter.
        by apply findShortestJob_elem in Hfind as [? _].
      * exists (S fuel), r. rewrite (SJF_loop_S _ _ _ _ Hrem). unfold SJF.body.
        by rewrite Hfind, Hdis.
    + exists 1%nat, Panic. rewrite (SJF_loop_S _ _ _ _ Hrem). unfold SJF.body.
      by rewrite Hfind, Hdis.
  - lia.
  - destruct (SJF.dispatch process v) as [v'|] eqn:Hdis.
    + destruct (Hless v') as (fuel & r & Hloop).
      * unfold SJF.dispatch in Hdis. destruct (SJF.index_ok _ _); [|done].
        injection Hdis as <-. split; simpl; [apply wrap_in_range|].
        apply Forall_forall. intros q [Hq _]%removeProcess_elem.
        by eapply Forall_forall in Harr.
      * unfold SJF.dispatch in Hdis. destruct (SJF.index_ok _ _); [|done].
        injection Hdis as <-. simpl. apply removeProcess_shorter.
        by apply findShortestJob_elem in Hfind as [? _].
      * exists (S fuel), r. rewrite (SJF_loop_S _ _ _ _ Hrem). unfold SJF.body.
        by rewrite Hfind, Hdis.
    + exists 1%nat, Panic. rewrite (SJF_loop_S _ _ _ _ Hrem). unfold SJF.body.
      by rewrite Hfind, Hdis.
  - assert (Hr0 : ArrivalTime r0 <= Int64.max_int).
    { rewrite Hrem in Harr. by apply Forall_cons in Harr as [? _]. }
    assert (Hst : SJF.serviceTime (SJF.idle v) = SJF.serviceTime v + 1).
    { simpl. apply wrap_small.
      unfold Int64.in_range, Int64.min_int, Int64.max_int in *. lia. }
    destruct (IH (SJF.idle v)) as (fuel & r & Hloop).
    + split; [|done]. rewrite Hst.
      unfold Int64.in_range, Int64.min_int, Int64.max_int in *. lia.
    + done.
    + rewrite Hst. lia.
    + intros v' Hv' Hlen. by apply Hless.
    + exists (S fuel), r. rewrite (SJF_loop_S _ _ _ _ Hrem). unfold SJF.body.
      by rewrite Hfind.
Qed.

Lemma SJF_loop_terminates (n : nat) (v : SJF.vars) :
  SJF_clock_ok v -> (length (SJF.remaining v) <= n)%nat ->
  exists fuel r, SJF.loop fuel v = Some r.
Proof.
  revert v. induction n as [|n IH]; intros v Hok Hlen.
  - exists 0%nat, (Ok v). simpl. destruct (SJF.remaining v); [done|simpl in Hlen; lia].
  - destruct (SJF.remaining v) as [|r0 rest] eqn:Hrem.
    + exists 0%nat, (Ok v). simpl. by rewrite Hrem.
    + apply (SJF_idle_steps _ v r0 rest Hok Hrem (le_n _)).
      intros v' Hv' Hless. apply IH; [done|].
      rewrite Hrem in Hless. simpl in *. lia.
Qed.

Lemma SJFSchedule_terminates (ps : list Process) :
  Forall well_typed ps -> exists fuel res, SJFSchedule fuel ps = Some res.
Proof.
  intros Hwt.
  destruct (SJF_loop_terminates (length ps) (SJF.init ps)) as (fuel & r & Hloop).
  - split; simpl; [by vm_compute|].
    apply Forall_forall. intros p Hp.
    rewrite (SliceStable_perm ArrivalTime ps) in Hp.
    eapply Forall_forall in Hwt as (_ & [_ Ha] & _); [|done]. done.
  - simpl. by rewrite (SliceStable_perm ArrivalTime ps).
  - exists fuel. unfold SJFSchedule. rewrite Hloop. destruct r; by eexists.
Qed.

Lemma SJFSchedule_Ok (fuel : nat) (ps : list Process) (out : Output) :
  SJFSchedule fuel ps = Some (Ok out) ->
  exists v, SJF.loop fuel (SJF.init ps) = Some (Ok v) /\
            out_schedule out = SJF.schedule v.
Proof.
  unfold SJFSchedule.
  destruct (SJF.loop fuel (SJF.init ps)) as [[v|]|]; [|done..].
  intros [= <-]. by exists v.
Qed.

Lemma SJFSchedule_Panic (fuel : nat) (ps : list Process) :
  SJFSchedule fuel ps = Some Panic <->
  SJF.loop fuel (SJF.init ps) = Some Panic.
Proof.
  unfold SJFSchedule.
  by destruct (SJF.loop fuel (SJF.init ps)) as [[v|]|].
Qed.


(** With ids among 1, ..., n the loop ends without a panic. *)
Lemma SJFSchedule_returns_Ok (ps : list Process) :
  int64_batch ps ->
  (forall p, p ∈ ps -> 1 <= ProcessID p <= Z.of_nat (length ps)) ->
  exists fuel out, SJFSchedule fuel ps = Some (Ok out).
Proof.
  intros [Hwt Hn] Hids.
  destruct (SJFSchedule_terminates ps Hwt) as (fuel & [out|] & Hrun).
  - by exists fuel, out.
  - exfalso. apply SJFSchedule_Panic in Hrun.
    eapply SJF_loop_no_panic; [exact Hwt| |constructor|exact Hrun].
    intros p Hp. apply index_ok_iff; auto.
    by eapply Forall_forall in Hwt as [? _].
Qed.

(** ** Claims about SJFSchedule *)




(** A crafted batch: the shortest job, id 3, arrives at tick 1, after the
    first dispatch point. *)
Definition crafted_batch : list Process :=
  [mkProcess 1 0 5 1; mkProcess 2 2 3 1; mkProcess 3 1 1 1].


Definition spec_batch : list Process :=
  [mkProcess 1 0 5 1; mkProcess 2 0 3 1].

Definition reversed_batch : list Process :=
  [mkProcess 2 0 3 1; mkProcess 1 0 5 1].

Lemma well_typed_small (id a b pr : Z) :
  Z.abs id <= 1000 -> Z.abs a <= 1000 -> Z.abs b <= 1000 ->
  Z.abs pr <= 1000 -> well_typed (mkProcess id a b pr).
Proof.
  unfold well_typed, Int64.in_range, Int64.min_int, Int64.max_int. simpl. lia.
Qed.


(** What a finished SJF run leaves in the table, for a batch of [int64]
    records: every process finds a row carrying its id at index [id - 1],
    and every row is the row of a process, stored at that process's
    [id - 1]. *)
Lemma SJF_run_table (ps : list Process) (fuel : nat) (v : SJF.vars) :
  int64_batch ps ->
  SJF.loop fuel (SJF.init ps) = Some (Ok v) ->
  length (SJF.schedule v) = length ps /\
  (forall p, p ∈ ps ->
     1 <= ProcessID p <= Z.of_nat (length ps) /\
     exists r, SJF.schedule v !! Z.to_nat (ProcessID p - 1) = Some (Some r) /\
               row_id r = ProcessID p) /\
  (forall i r, SJF.schedule v !! i = Some (Some r) ->
     row_id r = Z.of_nat i + 1 /\ exists p, p ∈ ps /\ row_of p r).
Proof.
  intros [Hwt Hn] Hloop.
  apply SJF_run_inv in Hloop as [[_ Hlen _ _ Hdone Hrows] Hrem]; [|done].
  assert (Hid : forall p, p ∈ ps -> Int64.in_range (ProcessID p)).
  { intros p Hp. by eapply Forall_forall in Hwt as [? _]. }
  assert (Hfin : forall p, p ∈ ps ->
            SJF.index_ok (SJF.row_index p) (length ps) = true /\
            exists r, SJF.schedule v !! Z.to_nat (SJF.row_index p)
                      = Some (Some r) /\ row_id r = ProcessID p).
  { intros p Hp. destruct (Hdone p Hp) as [Hin|?]; [|done].
    rewrite Hrem in Hin. by apply elem_of_nil in Hin. }
  split; [done|]. split.
  - intros p Hp. destruct (Hfin p Hp) as [Hok Hrow].
    rewrite (row_index_small p (length ps)) in Hrow by auto.
    split; [|done]. apply index_ok_iff in Hok; auto.
  - intros i r Hr.
    destruct (Hrows i r Hr) as (p & st & Hp & _ & _ & -> & Hi & _).
    destruct (Hfin p Hp) as [Hok _].
    rewrite (row_index_small p (length ps)) in Hi by auto.
    split; [simpl; lia|]. exists p. by split.
Qed.

(** C7, as the code has it: the table of [FCFSSchedule] holds the row of
    input process [i] at index [i]; the table of [SJFSchedule] holds the row
    of a process at index [ProcessID - 1], so it is ordered by id, and it is
    in input order when input position [i] carries the id [i + 1], in which
    case the run does return a table. *)
Theorem C7_table_order (ps : list Process) :
  (length (out_schedule (FCFSSchedule ps)) = length ps /\
   table_in_input_order ps (out_schedule (FCFSSchedule ps))) /\
  (int64_batch ps ->
   (exists fuel res, SJFSchedule fuel ps = Some res) /\
   (forall fuel out,
      SJFSchedule fuel ps = Some (Ok out) ->
      length (out_schedule out) = length ps /\
      (forall i r, out_schedule out !! i = Some (Some r) ->
         row_id r = Z.of_nat i + 1 /\ exists p, p ∈ ps /\ row_of p r)) /\
   ((forall i p, ps !! i = Some p -> ProcessID p = Z.of_nat i + 1) ->
    (exists fuel out, SJFSchedule fuel ps = Some (Ok out)) /\
    (forall fuel out,
       SJFSchedule fuel ps = Some (Ok out) ->
       table_in_input_order ps (out_schedule out)))).
Proof.
  split.
  - unfold FCFSSchedule. simpl. split.
    + rewrite FCFS_loop_length. simpl. apply length_replicate.
    + intros i p Hp.
      destruct (FCFS_loop_row ps 0 i p (FCFS.init (length ps)) Hp)
        as (r & Hr & Hrow & _).
      { simpl. by rewrite length_replicate. }
      by exists r.
  - intros Hbatch. split; [|split].
    + apply SJFSchedule_terminates. by destruct Hbatch.
    + intros fuel out Hrun.
      apply SJFSchedule_Ok in Hrun as (v & Hloop & ->).
      destruct (SJF_run_table ps fuel v Hbatch Hloop) as (Hlen & _ & Hrows).
      by split.
    + intros Hpos. split.
      * apply SJFSchedule_returns_Ok; [done|].
        intros p [i Hi]%list_elem_of_lookup. rewrite (Hpos i p Hi).
        apply lookup_lt_Some in Hi. lia.
      * intros fuel out Hrun i p Hp.
        apply SJFSchedule_Ok in Hrun as (v & Hloop & ->).
        destruct (SJF_run_table ps fuel v Hbatch Hloop) as (Hlen & Hby_id & Hrows).
        assert (Hin : p ∈ ps) by (apply list_elem_of_lookup; eauto).
        destruct (Hby_id p Hin) as [_ (r & Hr & Hrid)].
        rewrite (Hpos i p Hp) in Hr.
        replace (Z.to_nat (Z.of_nat i + 1 - 1)) with i in Hr by lia.
        exists r. split; [done|].
        destruct (Hrows i r Hr) as [_ (p' & Hp' & Hrow)].
        apply list_elem_of_lookup in Hp' as [j Hj].
        assert (j = i) as ->.
        { destruct Hrow as [Hid' _].
          rewrite Hrid, (Hpos i p Hp), (Hpos j p' Hj) in Hid'. lia. }
        rewrite Hp in Hj. by injection Hj as <-.
Qed.

Lemma int64_batch_small (ps : list Process) :
  Forall (fun p => Z.abs (ProcessID p) <= 1000 /\ Z.abs (ArrivalTime p) <= 1000 /\
                   Z.abs (BurstDuration p) <= 1000 /\ Z.abs (Priority p) <= 1000) ps ->
  (length ps <= 1000)%nat ->
  int64_batch ps.
Proof.
  intros Hall Hlen. split.
  - eapply Forall_impl; [exact Hall|]. intros [id a b pr]. simpl.
    intros (? & ? & ? & ?). by apply well_typed_small.
  - unfold Int64.max_int. lia.
Qed.

Lemma spec_batch_int64 : int64_batch spec_batch.
Proof. apply int64_batch_small; [repeat constructor; simpl; lia | simpl; lia]. Qed.

Lemma reversed_batch_int64 : int64_batch reversed_batch.
Proof. apply int64_batch_small; [repeat constructor; simpl; lia | simpl; lia]. Qed.

Lemma C7_witness :
  int64_batch spec_batch /\
  (forall i p, spec_batch !! i = Some p -> ProcessID p = Z.of_nat i + 1) /\
  exists out,
    SJFSchedule 2 spec_batch = Some (Ok out) /\
    table_in_input_order spec_batch (out_schedule out).
Proof.
  assert (Hpos : forall i p, spec_batch !! i = Some p ->
                   ProcessID p = Z.of_nat i + 1).
  { intros [|[|i]] p; simpl; intros [= <-]; reflexivity. }
  split; [exact spec_batch_int64|]. split; [exact Hpos|].
  eexists. split; [reflexivity|].
  exact (proj2 (proj2 (proj2 (proj2 (C7_table_order spec_batch)
                                spec_batch_int64)) Hpos) 2%nat _ eq_refl).
Defined.

(** The claim of C7 fails for SJF on the reversed batch of the spec's own
    example: the input starts with process 2, the table with the row of
    process 1. *)
Lemma C7_counterexample :
  exists out,
    SJFSchedule 2 reversed_batch = Some (Ok out) /\
    ~ table_in_input_order reversed_batch (out_schedule out).
Proof.
  eexists. split; [reflexivity|].
  intros Horder.
  destruct (Horder 0%nat (mkProcess 2 0 3 1) eq_refl) as (r & Hr & Hid & _).
  simpl in Hr. injection Hr as <-. simpl in Hid. discriminate.
Qed.

Lemma ids_1_to_n_range (ps : list Process) (p : Process) :
  ids_1_to_n ps -> p ∈ ps -> 1 <= ProcessID p <= Z.of_nat (length ps).
Proof.
  unfold ids_1_to_n. intros Hperm Hp.
  assert (Hin : ProcessID p ∈ map Z.of_nat (seq 1 (length ps))).
  { rewrite <- Hperm. by apply list_elem_of_fmap_2. }
  apply list_elem_of_fmap in Hin as (k & -> & Hk).
  apply elem_of_seq in Hk. lia.
Qed.

(** C10: [SJFSchedule] stores the row of a process at table index
    [ProcessID - 1].  For a batch of [int64] records the run panics with an
    index out of range exactly when some id lies outside 1, ..., n, and it
    ends with every row of the table written exactly when the ids are the
    integers 1, ..., n, each once; with any other ids it panics or leaves a
    row missing. *)
Theorem C10_sjf_rows_indexed_by_id (ps : list Process) :
  int64_batch ps ->
  (exists fuel res, SJFSchedule fuel ps = Some res) /\
  forall fuel res,
    SJFSchedule fuel ps = Some res ->
    (forall out i r, res = Ok out -> out_schedule out !! i = Some (Some r) ->
       Z.of_nat i = row_id r - 1) /\
    (res = Panic <->
     ~ Forall (fun p => 1 <= ProcessID p <= Z.of_nat (length ps)) ps) /\
    (ids_1_to_n ps <->
     exists out, res = Ok out /\ Forall is_Some (out_schedule out)).
Proof.
  intros Hbatch. split; [apply SJFSchedule_terminates; by destruct Hbatch|].
  intros fuel res Hrun. pose proof Hbatch as [Hwt Hn].
  assert (Hid : forall p, p ∈ ps -> Int64.in_range (ProcessID p)).
  { intros p Hp. by eapply Forall_forall in Hwt as [? _]. }
  assert (Hsafe : Forall (fun p => 1 <= ProcessID p <= Z.of_nat (length ps)) ps ->
                  res ≠ Panic).
  { intros Hall ->. apply SJFSchedule_Panic in Hrun.
    eapply SJF_loop_no_panic; [exact Hwt| |constructor|exact Hrun].
    intros p Hp. apply index_ok_iff; auto. by eapply Forall_forall in Hall. }
  split; [|split].
  - intros out i r -> Hr.
    apply SJFSchedule_Ok in Hrun as (v & Hloop & Hout). rewrite Hout in Hr.
    destruct (SJF_run_table ps fuel v Hbatch Hloop) as (_ & _ & Hrows).
    destruct (Hrows i r Hr) as [-> _]. lia.
  - split.
    + intros -> Hall. by apply Hsafe.
    + intros Hnot. destruct res as [out|]; [|done]. exfalso. apply Hnot.
      apply SJFSchedule_Ok in Hrun as (v & Hloop & _).
      destruct (SJF_run_table ps fuel v Hbatch Hloop) as (_ & Hby_id & _).
      apply Forall_forall. intros p Hp. by destruct (Hby_id p Hp).
  - split.
    + intros Hperm.
      destruct res as [out|]; [|exfalso; apply Hsafe; [|done]].
      2:{ apply Forall_forall. intros p Hp. by apply ids_1_to_n_range. }
      exists out. split; [done|].
      apply SJFSchedule_Ok in Hrun as (v & Hloop & ->).
      destruct (SJF_run_table ps fuel v Hbatch Hloop) as (Hlen & Hby_id & _).
      apply Forall_lookup. intros i x Hx.
      assert (Hi : (i < length ps)%nat).
      { rewrite <- Hlen. by eapply lookup_lt_Some. }
      assert (Hin : Z.of_nat (S i) ∈ map ProcessID ps).
      { unfold ids_1_to_n in Hperm. rewrite Hperm. apply list_elem_of_fmap_2, elem_of_seq. lia. }
      apply list_elem_of_fmap in Hin as (p & Hpid & Hp).
      destruct (Hby_id p Hp) as [_ (r & Hr & _)].
      rewrite <- Hpid in Hr.
      replace (Z.to_nat (Z.of_nat (S i) - 1)) with i in Hr by lia.
      rewrite Hr in Hx. injection Hx as <-. by eexists.
    + intros (out & -> & Hfull).
      apply SJFSchedule_Ok in Hrun as (v & Hloop & Hout). rewrite Hout in Hfull.
      destruct (SJF_run_table ps fuel v Hbatch Hloop) as (Hlen & _ & Hrows).
      unfold ids_1_to_n. symmetry. apply submseteq_length_Permutation.
      * apply NoDup_submseteq.
        { apply NoDup_fmap_2; [intros ? ?; lia|apply NoDup_seq]. }
        intros z Hz.
        apply list_elem_of_fmap in Hz as (k & -> & Hk).
        apply elem_of_seq in Hk.
        destruct (lookup_lt_is_Some_2 (SJF.schedule v) (k - 1)) as [x Hx]; [lia|].
        pose proof Hx as Hsome. eapply Forall_lookup_1 in Hsome; [|exact Hfull].
        destruct Hsome as [r ->].
        destruct (Hrows _ r Hx) as [Hrid (p & Hp & Hrow & _)].
        apply list_elem_of_fmap. exists p. split; [|done].
        rewrite <- Hrow, Hrid. lia.
      * by rewrite !length_map, length_seq.
Qed.

Lemma C10_witness :
  int64_batch reversed_batch /\
  exists res,
    SJFSchedule 2 reversed_batch = Some res /\
    (ids_1_to_n reversed_batch <->
     exists out, res = Ok out /\ Forall is_Some (out_schedule out)).
Proof.
  split; [exact reversed_batch_int64|].
  eexists. split; [reflexivity|].
  exact (proj2 (proj2 (proj2 (C10_sjf_rows_indexed_by_id reversed_batch
                                reversed_batch_int64) 2%nat _ eq_refl))).
Defined.

(** ** SJFPrioritySchedule: slices and pointers over the heap *)

Section SJFP_heap.
Import SJFP.
Context {rt : GoRuntime}.
Implicit Types (h : heap) (s : slice) (p : pointer) (x : Process1).

(** The content of cell [i] of block [b], if there is such a cell. *)
Definition cell h (b i : nat) : option Process1 :=
  h !! b ≫= fun a => a !! i.

(** A slice of the driver's own: it lies in a block other than the
    caller's (block 1), within the bounds of that block. *)
Definition slice_ok h s : Prop :=
  s_blk s ≠ 1%nat /\ (s_len s <= s_cap s)%nat /\
  exists a, h !! s_blk s = Some a /\ (s_off s + s_cap s <= length a)%nat.

(** A pointer of the driver's own: it points to an existing cell outside
    the caller's block and in front of the window of [s]. *)
Definition pointer_ok h s p : Prop :=
  p_blk p ≠ 1%nat /\ is_Some (cell h (p_blk p) (p_idx p)) /\
  (p_blk p = s_blk s -> (p_idx p < s_off s)%nat).

Lemma elems_lookup h s i :
  elems h s !! i =
    if decide (i < s_len s)%nat then cell h (s_blk s) (s_off s + i) else None.
Proof.
  unfold elems, cell. case_decide.
  - rewrite lookup_take_lt, lookup_drop by done.
    by destruct (h !! s_blk s).
  - apply lookup_take_ge. lia.
Qed.

Lemma elems_length h s : slice_ok h s -> length (elems h s) = s_len s.
Proof.
  intros (_ & Hlen & a & Ha & Hcap). unfold elems. rewrite Ha. simpl.
  rewrite length_take, length_drop. lia.
Qed.

Lemma cell_store h p x b i :
  cell (store h p x) b i =
    if decide (b = p_blk p /\ i = p_idx p) then (fun _ => x) <$> cell h b i
    else cell h b i.
Proof.
  unfold cell, store. rewrite list_lookup_alter.
  destruct (decide (p_blk p = b)) as [<-|Hb].
  - destruct (h !! p_blk p) as [a|]; simpl; [|by case_decide].
    rewrite list_lookup_insert.
    destruct (decide (p_idx p = i)) as [<-|Hi].
    + rewrite (decide_True (P := _ = _ /\ _ = _)) by done.
      destruct (a !! p_idx p) eqn:Hcell.
      * apply lookup_lt_Some in Hcell. by rewrite decide_True.
      * apply lookup_ge_None in Hcell. rewrite decide_False by lia. done.
    + rewrite !decide_False by (intros [? ?]; congruence). done.
  - rewrite decide_False by (intros [-> _]; done). done.
Qed.

Lemma block_store_ne h p x b : b ≠ p_blk p -> store h p x !! b = h !! b.
Proof. intros Hb. unfold store. by apply list_lookup_alter_ne. Qed.

Lemma block_store_length h p x b a :
  h !! b = Some a ->
  exists a', store h p x !! b = Some a' /\ length a' = length a.
Proof.
  intros Ha. unfold store. rewrite list_lookup_alter.
  case_decide; subst; rewrite Ha; simpl; eexists; split; try done.
  apply length_insert.
Qed.

Lemma load_store h p x : is_Some (cell h (p_blk p) (p_idx p)) ->
  load (store h p x) p = x.
Proof.
  intros [y Hy]. unfold load. fold (cell (store h p x) (p_blk p) (p_idx p)).
  rewrite cell_store, decide_True, Hy by done. done.
Qed.

(** Writing through a pointer that is in front of the window of [s]
    leaves the slice as it was. *)
Lemma store_slice_ok h s p x :
  slice_ok h s -> slice_ok (store h p x) s.
Proof.
  intros (Hb & Hlen & a & Ha & Hcap).
  destruct (block_store_length h p x _ a Ha) as (a' & Ha' & Hl).
  split; [done|]. split; [done|]. exists a'. split; [done|]. lia.
Qed.

Lemma store_elems h s p x :
  pointer_ok h s p -> elems (store h p x) s = elems h s.
Proof.
  intros (_ & _ & Hfront). apply list_eq. intros i.
  rewrite !elems_lookup. case_decide; [|done].
  rewrite cell_store, decide_False; [done|].
  intros [Hb Hi]. symmetry in Hb. specialize (Hfront Hb). lia.
Qed.

Lemma store_pointer_ok h s p q x :
  pointer_ok h s q -> pointer_ok (store h p x) s q.
Proof.
  intros (Hb & [y Hy] & Hfront). split; [done|]. split; [|done].
  rewrite cell_store, Hy. case_decide; by eexists.
Qed.

Lemma store_caller h p x : p_blk p ≠ 1%nat -> store h p x !! 1%nat = h !! 1%nat.
Proof. intros Hb. by apply block_store_ne. Qed.

Lemma load_store_ne h p q x :
  (p_blk q, p_idx q) ≠ (p_blk p, p_idx p) -> load (store h p x) q = load h q.
Proof.
  intros Hne. unfold load. fold (cell (store h p x) (p_blk q) (p_idx q)).
  rewrite cell_store, decide_False; [done|]. intros [? ?]. apply Hne. congruence.
Qed.

(** [append] adds [x] behind the elements of the slice, and touches
    neither the caller's block nor a cell in front of the slice. *)
Lemma append_spec h s x :
  is_Some (h !! 1%nat) -> slice_ok h s ->
  (append h s x).1 !! 1%nat = h !! 1%nat /\
  slice_ok (append h s x).1 (append h s x).2 /\
  elems (append h s x).1 (append h s x).2 = elems h s ++ [x] /\
  forall q, pointer_ok h s q ->
    pointer_ok (append h s x).1 (append h s x).2 q /\
    load (append h s x).1 q = load h q.
Proof.
  intros Hcaller Hok. pose proof (elems_length h s Hok) as Hlen.
  destruct Hok as (Hb & Hle & a & Ha & Hcap). unfold append.
  destruct (Nat.ltb_spec (s_len s) (s_cap s)) as [Hlt|Hge]; simpl.
  - split; [by apply store_caller|]. split; [|split].
    + destruct (block_store_length h (at_index s (s_len s)) x _ a Ha)
        as (a' & Ha' & Hl).
      split; [done|]. split; [simpl; lia|]. exists a'. simpl.
      split; [done|lia].
    + apply list_eq. intros i. rewrite elems_lookup. simpl.
      destruct (decide (i < s_len s)%nat) as [Hi|Hi].
      * rewrite decide_True, lookup_app_l, elems_lookup, decide_True by lia.
        rewrite cell_store, decide_False; [done|]. simpl. lia.
      * rewrite lookup_app_r by lia. rewrite Hlen.
        destruct (decide (i = s_len s)) as [->|Hi'].
        -- rewrite decide_True, Nat.sub_diag by lia. simpl.
           rewrite cell_store, decide_True by done.
           unfold cell. rewrite Ha. simpl.
           destruct (lookup_lt_is_Some_2 a (s_off s + s_len s)) as [y ->];
             [lia|done].
        -- rewrite decide_False by lia.
           symmetry. apply lookup_ge_None. simpl. lia.
    + intros q (Hq1 & [y Hy] & Hq3).
      assert (Hne : (p_blk q, p_idx q)
                    ≠ (s_blk s, (s_off s + s_len s)%nat)).
      { intros [= Hqb Hqi]. specialize (Hq3 Hqb). lia. }
      split; [|by apply load_store_ne].
      split; [done|]. split; [|done].
      rewrite cell_store, decide_False, Hy; [by eexists|].
      simpl. intros [? ?]. apply Hne. congruence.
  - assert (Hh : (1 < length h)%nat) by by apply lookup_lt_is_Some.
    split; [by apply lookup_app_l|]. split; [|split].
    + split; [simpl; lia|]. split.
      { simpl. pose proof (growslice_grows (s_cap s)). lia. }
      eexists. simpl. split; [by apply list_lookup_middle|].
      rewrite length_app, Hlen. simpl. rewrite length_replicate.
      pose proof (growslice_grows (s_cap s)). lia.
    + unfold elems at 1. simpl. rewrite list_lookup_middle by done. simpl.
      rewrite drop_0, (cons_middle x), app_assoc.
      apply take_app_length'. rewrite length_app, Hlen. simpl. lia.
    + intros q (Hq1 & [y Hy] & Hq3).
      assert (Hqb : (p_blk q < length h)%nat).
      { unfold cell in Hy. destruct (h !! p_blk q) eqn:Hblk; [|done].
        by eapply lookup_lt_Some. }
      assert (Hcell : cell (h ++ [elems h s ++ x ::
                                  replicate (growslice (s_cap s) - S (s_len s)) zero])
                        (p_blk q) (p_idx q) = cell h (p_blk q) (p_idx q)).
      { unfold cell. by rewrite lookup_app_l. }
      split.
      * split; [done|]. split; [rewrite Hcell, Hy; by eexists|].
        simpl. lia.
      * unfold load. fold (cell h (p_blk q) (p_idx q)). by rewrite <- Hcell.
Qed.

(** [sort.Slice] puts the sorted elements where the elements were. *)
Lemma sort_in_place_spec h s :
  slice_ok h s ->
  sort_in_place h s !! 1%nat = h !! 1%nat /\
  slice_ok (sort_in_place h s) s /\
  elems (sort_in_place h s) s = sort_Slice (elems h s) /\
  forall q, pointer_ok h s q ->
    pointer_ok (sort_in_place h s) s q /\
    load (sort_in_place h s) q = load h q.
Proof.
  intros Hok. pose proof (elems_length h s Hok) as Hlen.
  destruct Hok as (Hb & Hle & a & Ha & Hcap).
  unfold elems in Hlen. rewrite Ha in Hlen. simpl in Hlen.
  assert (Hsl : length (sort_Slice (take (s_len s) (drop (s_off s) a)))
                = s_len s).
  { by rewrite (Permutation_length (sort_Slice_perm _)). }
  assert (Hblk : sort_in_place h s !! s_blk s
                 = Some (take (s_off s) a
                         ++ sort_Slice (take (s_len s) (drop (s_off s) a))
                         ++ drop (s_off s + s_len s) a)).
  { unfold sort_in_place. by rewrite list_lookup_alter_eq, Ha. }
  split; [|split; [|split]].
  - unfold sort_in_place. by apply list_lookup_alter_ne.
  - split; [done|]. split; [done|]. eexists. split; [exact Hblk|].
    rewrite !length_app, Hsl, length_take, length_drop. lia.
  - unfold elems. rewrite Hblk, Ha. simpl.
    rewrite drop_app_length' by (rewrite length_take; lia).
    by rewrite take_app_length'.
  - intros q (Hq1 & [y Hy] & Hq3).
    assert (Hcell : cell (sort_in_place h s) (p_blk q) (p_idx q)
                    = cell h (p_blk q) (p_idx q)).
    { unfold cell. destruct (decide (p_blk q = s_blk s)) as [Heq|Hne].
      - rewrite Heq, Hblk, Ha. simpl. specialize (Hq3 Heq).
        rewrite lookup_app_l by (rewrite length_take; lia).
        by apply lookup_take_lt.
      - unfold sort_in_place. by rewrite list_lookup_alter_ne. }
    split.
    + split; [done|]. split; [rewrite Hcell, Hy; by eexists|done].
    + unfold load. fold (cell h (p_blk q) (p_idx q)). by rewrite <- Hcell.
Qed.
End SJFP_heap.

(** ** SJFPrioritySchedule: what holds at every tick *)

(** What the driver's variables denote: the elements of [waiting], the
    record [active] points to, and the two counters. *)
Record snapshot : Type := mkSnapshot {
  sn_waiting : list SJFP.Process1;
  sn_active : option SJFP.Process1;
  sn_completed : Z;
  sn_time : Z
}.

(** A record of the batch is due at [t] when the test of line 196 lets it
    into the waiting set. *)
Definition due (t : Z) (p : SJFP.Process1) : Prop :=
  SJFP.Completed p = false /\ SJFP.Arrival p <= t.

#[local] Instance due_dec t p : Decision (due t p).
Proof. unfold due. apply _. Defined.

Section SJFP_driver.
Import SJFP.
Context {rt : GoRuntime}.
Variable ps : list Process1.

Definition snap (v : vars) : snapshot :=
  {| sn_waiting := elems (mem v) (waiting v);
     sn_active := load (mem v) <$> active v;
     sn_completed := completed v;
     sn_time := currentTime v |}.

(** The variables at the start of tick [k]. *)
Definition state_at (k : nat) : vars :=
  Nat.iter k (tick (caller_slice ps)) (init ps).

Record SJFP_inv (v : vars) : Prop := {
  inv_caller : mem v !! 1%nat = Some ps;
  inv_waiting : slice_ok (mem v) (waiting v);
  inv_active : forall a, active v = Some a -> pointer_ok (mem v) (waiting v) a
}.

Lemma SJFP_inv_init : SJFP_inv (init ps).
Proof.
  split; simpl; [done| |done].
  split; [done|]. split; [done|]. exists []. by split.
Qed.

Lemma load_caller (v : vars) (i : nat) (x : Process1) :
  SJFP_inv v -> ps !! i = Some x ->
  load (mem v) (at_index (caller_slice ps) i) = x.
Proof.
  intros [Hc _ _] Hx. unfold load. simpl. by rewrite Hc; simpl; rewrite Hx.
Qed.

Lemma arrive_one_spec (v : vars) (i : nat) (x : Process1) :
  SJFP_inv v -> ps !! i = Some x ->
  let v1 := arrive_one (caller_slice ps) v i in
  SJFP_inv v1 /\
  sn_waiting (snap v1)
    = sn_waiting (snap v) ++ (if decide (due (currentTime v) x) then [x] else []) /\
  sn_active (snap v1) = sn_active (snap v) /\
  active v1 = active v /\ completed v1 = completed v /\
  currentTime v1 = currentTime v.
Proof.
  intros Hinv Hx. pose proof Hinv as [Hc Hw Ha]. unfold arrive_one.
  rewrite (load_caller v i x Hinv Hx).
  destruct (negb (Completed x) && (Arrival x <=? currentTime v)) eqn:Htest.
  - rewrite decide_True.
    2:{ apply andb_true_iff in Htest as [H1 H2]. split; [|lia].
        by destruct (Completed x). }
    destruct (append_spec (mem v) (waiting v) x) as (Hc' & Hw' & He & Hp);
      [by rewrite Hc|done|].
    simpl. split; [|split; [|split]]; try done.
    + split; simpl; [by rewrite Hc'|done|].
      intros a Hact. by apply Hp, Ha.
    + unfold snap. simpl. destruct (active v) as [a|]; [|done]. simpl.
      f_equal. by apply Hp, Ha.
  - rewrite decide_False.
    2:{ intros [H1 H2]. rewrite H1 in Htest. simpl in Htest. lia. }
    rewrite app_nil_r. split; [done|]. by repeat split.
Qed.

Lemma arrive_from_spec (rest : list Process1) (k : nat) (v : vars) :
  SJFP_inv v ->
  (forall i x, rest !! i = Some x -> ps !! (k + i)%nat = Some x) ->
  let v1 := foldl (arrive_one (caller_slice ps)) v (seq k (length rest)) in
  SJFP_inv v1 /\
  sn_waiting (snap v1)
    = sn_waiting (snap v) ++ filter (due (currentTime v)) rest /\
  sn_active (snap v1) = sn_active (snap v) /\
  active v1 = active v /\ completed v1 = completed v /\
  currentTime v1 = currentTime v.
Proof.
  revert k v. induction rest as [|x rest IH]; intros k v Hinv Hrest;
    cbn [length seq foldl]; cbv zeta.
  - rewrite filter_nil, app_nil_r. split; [done|]. by repeat split.
  - destruct (arrive_one_spec v k x Hinv) as (Hinv1 & Hw1 & Ha1 & Hact1 & Hc1 & Ht1).
    { rewrite <- (Nat.add_0_r k). by apply Hrest. }
    destruct (IH (S k) (arrive_one (caller_slice ps) v k) Hinv1)
      as (Hinv2 & Hw2 & Ha2 & Hact2 & Hc2 & Ht2).
    { intros i y Hy. replace (S k + i)%nat with (k + S i)%nat by lia.
      by apply Hrest. }
    split; [done|]. rewrite Hw2, Hw1, Ht1, Ha2, Hact2, Hc2, Ht2.
    split; [|done]. rewrite <- app_assoc. f_equal.
    rewrite filter_cons. by case_decide.
Qed.

(** Lines 195-199 append, in input order, a copy of every record of the
    caller's slice that is due. *)
Lemma arrive_spec (v : vars) :
  SJFP_inv v ->
  let v1 := arrive (caller_slice ps) v in
  SJFP_inv v1 /\
  sn_waiting (snap v1) = sn_waiting (snap v) ++ filter (due (currentTime v)) ps /\
  sn_active (snap v1) = sn_active (snap v) /\
  active v1 = active v /\ completed v1 = completed v /\
  currentTime v1 = currentTime v.
Proof. intros Hinv. by apply (arrive_from_spec ps 0 v Hinv). Qed.

Lemma sort_waiting_spec (v : vars) :
  SJFP_inv v ->
  let v1 := sort_waiting v in
  SJFP_inv v1 /\
  sn_waiting (snap v1) = sort_Slice (sn_waiting (snap v)) /\
  sn_active (snap v1) = sn_active (snap v) /\
  active v1 = active v /\ completed v1 = completed v /\
  currentTime v1 = currentTime v.
Proof.
  intros [Hc Hw Ha].
  destruct (sort_in_place_spec (mem v) (waiting v) Hw) as (Hc' & Hw' & He & Hp).
  simpl. split; [|split; [|split]]; try done.
  - split; simpl; [by rewrite Hc'|done|]. intros a Hact. by apply Hp, Ha.
  - unfold snap. simpl. destruct (active v) as [a|]; [|done]. simpl.
    f_equal. by apply Hp, Ha.
Qed.

(** The same steps on what the variables denote. *)
Definition select_view (s : snapshot) : snapshot :=
  match sn_active s, sn_waiting s with
  | None, x :: w => mkSnapshot w (Some x) (sn_completed s) (sn_time s)
  | _, _ => s
  end.

Definition run_view (s : snapshot) : snapshot :=
  match sn_active s with
  | None => s
  | Some x =>
      let burst := Int64.sub (Burst x) 1 in
      if burst =? 0 then
        mkSnapshot (sn_waiting s) None (Int64.add (sn_completed s) 1)
                   (sn_time s)
      else
        mkSnapshot (sn_waiting s)
                   (Some (mkProcess1 (Name x) burst (Arrival x) (Priority x)
                                     (Completed x) (Turnaround x) (Waiting x)))
                   (sn_completed s) (sn_time s)
  end.

Definition tick_view (s : snapshot) : snapshot :=
  let s1 :=
    mkSnapshot (sort_Slice (sn_waiting s ++ filter (due (sn_time s)) ps))
               (sn_active s) (sn_completed s) (sn_time s) in
  let s2 := run_view (select_view s1) in
  mkSnapshot (sn_waiting s2) (sn_active s2) (sn_completed s2)
             (Int64.add (sn_time s2) 1).

Lemma select_spec (v : vars) :
  SJFP_inv v ->
  SJFP_inv (select v) /\ snap (select v) = select_view (snap v).
Proof.
  intros Hinv. pose proof Hinv as [Hc Hw Ha].
  unfold select, select_view, snap at 2 3. simpl.
  destruct (active v) as [a|] eqn:Hact; simpl.
  { split; [done|]. unfold snap. by rewrite Hact. }
  pose proof (elems_length _ _ Hw) as Hlen.
  destruct (Nat.ltb_spec 0 (s_len (waiting v))) as [Hpos|Hzero].
  - destruct Hw as (Hb & Hle & arr & Harr & Hcap).
    destruct (elems (mem v) (waiting v)) as [|x w] eqn:He;
      [simpl in Hlen; lia|].
    assert (Hhead : cell (mem v) (s_blk (waiting v)) (s_off (waiting v) + 0)
                    = Some x).
    { pose proof (elems_lookup (mem v) (waiting v) 0) as H0.
      rewrite He, decide_True in H0 by done. done. }
    assert (Htail : elems (mem v) (tail (waiting v)) = w).
    { change w with (drop 1 (x :: w)). rewrite <- He.
      apply list_eq. intros i. rewrite lookup_drop, !elems_lookup. simpl.
      destruct (decide (i < s_len (waiting v) - 1)%nat).
      - rewrite decide_True by lia. f_equal. lia.
      - rewrite decide_False by lia. done. }
    split.
    + split; simpl; [done| |].
      * split; [done|]. split; [simpl; lia|]. exists arr. simpl.
        split; [done|lia].
      * intros a [= <-]. split; [done|]. simpl. split; [|lia].
        rewrite Hhead. by eexists.
    + unfold snap. simpl. rewrite Htail. f_equal.
      unfold load. simpl. fold (cell (mem v) (s_blk (waiting v))
                                     (s_off (waiting v) + 0)).
      by rewrite Hhead.
  - assert (He : elems (mem v) (waiting v) = []).
    { apply nil_length_inv. lia. }
    rewrite He. split; [done|]. unfold snap. rewrite Hact, He. done.
Qed.

Lemma run_active_spec (v : vars) :
  SJFP_inv v ->
  SJFP_inv (run_active v) /\ snap (run_active v) = run_view (snap v).
Proof.
  intros Hinv. pose proof Hinv as [Hc Hw Ha].
  unfold run_active, run_view, snap at 2. simpl.
  destruct (active v) as [a|] eqn:Hact; simpl; [|split; [done|]].
  2:{ unfold snap. by rewrite Hact. }
  destruct (Ha a eq_refl) as (Hab & Hcell & Hfront).
  destruct (Int64.sub (Burst (load (mem v) a)) 1 =? 0) eqn:Hzero.
  - split.
    + split; simpl; [|by apply store_slice_ok|done].
      by rewrite store_caller.
    + unfold snap. simpl. by rewrite (store_elems _ _ _ _ (Ha a eq_refl)).
  - split.
    + split; simpl; [|by apply store_slice_ok|].
      * by rewrite store_caller.
      * intros a' Ha'. injection Ha' as <-.
        by apply store_pointer_ok, Ha.
    + unfold snap. simpl.
      by rewrite (store_elems _ _ _ _ (Ha a eq_refl)), load_store.
Qed.

Lemma tick_spec (v : vars) :
  SJFP_inv v ->
  SJFP_inv (tick (caller_slice ps) v) /\
  snap (tick (caller_slice ps) v) = tick_view (snap v).
Proof.
  intros Hinv. unfold tick.
  destruct (arrive_spec v Hinv) as (Hinv1 & Hw1 & Ha1 & _ & Hc1 & Ht1).
  destruct (sort_waiting_spec _ Hinv1) as (Hinv2 & Hw2 & Ha2 & _ & Hc2 & Ht2).
  destruct (select_spec _ Hinv2) as (Hinv3 & Hs3).
  destruct (run_active_spec _ Hinv3) as (Hinv4 & Hs4).
  split.
  - destruct Hinv4 as [? ? ?]. by split.
  - assert (Hs2 : snap (sort_waiting (arrive (caller_slice ps) v))
                  = mkSnapshot
                      (sort_Slice (sn_waiting (snap v)
                                   ++ filter (due (sn_time (snap v))) ps))
                      (sn_active (snap v)) (sn_completed (snap v))
                      (sn_time (snap v))).
    { change (sn_time (snap v)) with (currentTime v).
      change (sn_completed (snap v)) with (completed v).
      rewrite <- Hw1, <- Hw2, <- Ha1, <- Ha2, <- Hc1, <- Hc2, <- Ht1, <- Ht2.
      done. }
    set (v4 := run_active _) in *.
    change (mkSnapshot (sn_waiting (snap v4)) (sn_active (snap v4))
                       (sn_completed (snap v4))
                       (Int64.add (sn_time (snap v4)) 1)
            = tick_view (snap v)).
    by rewrite Hs4, Hs3, Hs2.
Qed.

Lemma state_at_inv (k : nat) : SJFP_inv (state_at k).
Proof.
  induction k as [|k IH]; [apply SJFP_inv_init|].
  unfold state_at. simpl. by apply tick_spec.
Qed.

(** The variables of tick [k] when line 207 is reached. *)
Definition dispatched_at (k : nat) : vars :=
  select (sort_waiting (arrive (caller_slice ps) (state_at k))).

Lemma dispatched_at_inv (k : nat) : SJFP_inv (dispatched_at k).
Proof.
  unfold dispatched_at.
  destruct (arrive_spec _ (state_at_inv k)) as (Hinv1 & _).
  destruct (sort_waiting_spec _ Hinv1) as (Hinv2 & _).
  by destruct (select_spec _ Hinv2) as (Hinv3 & _).
Qed.

(** Lines 209-215 on the record [active] points to. *)
Lemma run_active_completes (v : vars) (a : pointer) :
  SJFP_inv v -> active v = Some a ->
  Int64.sub (Burst (load (mem v) a)) 1 = 0 ->
  let x := load (mem (run_active v)) a in
  Completed x = true /\
  Arrival x = Arrival (load (mem v) a) /\
  Priority x = Priority (load (mem v) a) /\
  Turnaround x = Int64.sub (Int64.add (currentTime v) 1) (Arrival x) /\
  Waiting x = Int64.sub (Turnaround x) (Priority x).
Proof.
  intros [_ _ Ha] Hact Hzero. destruct (Ha a Hact) as (_ & Hcell & _).
  unfold run_active. rewrite Hact. cbv zeta. rewrite Hzero. simpl.
  by rewrite load_store.
Qed.
End SJFP_driver.

(** ** Claims about the caller's records and the waiting set *)

(** The sum of a field over the records, as lines 220-224 accumulate it. *)
Definition sum_field (f : SJFP.Process1 -> Z) (ps : list SJFP.Process1) : Z :=
  foldl (fun acc p => Int64.add acc (f p)) 0 ps.

Lemma totals_from (h : list (list SJFP.Process1)) (ps rest : list SJFP.Process1)
    (k : nat) (acc : Z * Z) :
  h !! 1%nat = Some ps ->
  (forall i x, rest !! i = Some x -> ps !! (k + i)%nat = Some x) ->
  foldl (fun acc i =>
           let p := SJFP.load h (SJFP.at_index (SJFP.caller_slice ps) i) in
           (Int64.add acc.1 (SJFP.Turnaround p), Int64.add acc.2 (SJFP.Waiting p)))
        acc (seq k (length rest))
  = (foldl (fun a p => Int64.add a (SJFP.Turnaround p)) acc.1 rest,
     foldl (fun a p => Int64.add a (SJFP.Waiting p)) acc.2 rest).
Proof.
  intros Hc. revert k acc. induction rest as [|x rest IH]; intros k acc Hrest;
    cbn [length seq foldl].
  - by destruct acc.
  - rewrite IH.
    + assert (Hx : SJFP.load h (SJFP.at_index (SJFP.caller_slice ps) k) = x).
      { unfold SJFP.load. simpl. rewrite Hc. simpl.
        rewrite <- (Nat.add_0_r k). by rewrite (Hrest 0%nat x eq_refl). }
      cbv zeta. by rewrite Hx.
    + intros i y Hy. replace (S k + i)%nat with (k + S i)%nat by lia.
      by apply Hrest.
Qed.

Lemma totals_caller (h : list (list SJFP.Process1)) (ps : list SJFP.Process1) :
  h !! 1%nat = Some ps ->
  SJFP.totals (SJFP.caller_slice ps) h
  = (sum_field SJFP.Turnaround ps, sum_field SJFP.Waiting ps).
Proof.
  intros Hc. exact (totals_from h ps ps 0 (0, 0) Hc (fun i x Hx => Hx)).
Qed.

Lemma sum_field_zero (f : SJFP.Process1 -> Z) (ps : list SJFP.Process1) :
  Forall (fun p => f p = 0) ps -> sum_field f ps = 0.
Proof.
  unfold sum_field. induction 1 as [|p ps Hp _ IH]; simpl; [done|].
  by rewrite Hp.
Qed.

(** A run that ends, ends in the state at the start of some tick. *)
Lemma loop_state_at `{SJFP.GoRuntime} (ps : list SJFP.Process1) (fuel k : nat)
    (v : SJFP.vars) :
  SJFP.loop fuel (SJFP.caller_slice ps) (state_at ps k) = Some v ->
  exists k', v = state_at ps k'.
Proof.
  revert k. induction fuel as [|fuel IH]; intros k; simpl;
    destruct (_ <? _); try done; try (intros [= <-]; by exists k).
  apply (IH (S k)).
Qed.

(** C6: [SJFPrioritySchedule] never writes to the caller's slice.  At the
    start of every tick the caller's block holds the input records, and
    neither [waiting] nor [active] refers to it; so the totals of lines
    220-224, and the averages printed from them, are sums of the
    [Turnaround] and [Waiting] fields of the input, which are zero for
    records that come in with zero fields. *)
Theorem C6_caller_records_never_mutated `{SJFP.GoRuntime}
    (ps : list SJFP.Process1) :
  (forall k,
     SJFP.mem (state_at ps k) !! 1%nat = Some ps /\
     SJFP.elems (SJFP.mem (state_at ps k)) (SJFP.caller_slice ps) = ps /\
     SJFP.s_blk (SJFP.waiting (state_at ps k)) ≠ 1%nat /\
     (forall a, SJFP.active (state_at ps k) = Some a -> SJFP.p_blk a ≠ 1%nat)) /\
  (forall fuel v, SJFP.run fuel ps = Some v ->
     SJFP.mem v !! 1%nat = Some ps /\
     SJFP.totals (SJFP.caller_slice ps) (SJFP.mem v)
     = (sum_field SJFP.Turnaround ps, sum_field SJFP.Waiting ps)) /\
  (forall fuel rep, SJFPrioritySchedule fuel ps = Some rep ->
     let n := Int64.to_float64 (Z.of_nat (length ps)) in
     SJFP.aveTurnaround rep
     = (Int64.to_float64 (sum_field SJFP.Turnaround ps) / n)%float /\
     SJFP.aveWaiting rep
     = (Int64.to_float64 (sum_field SJFP.Waiting ps) / n)%float) /\
  (Forall (fun p => SJFP.Turnaround p = 0 /\ SJFP.Waiting p = 0) ps ->
   sum_field SJFP.Turnaround ps = 0 /\ sum_field SJFP.Waiting ps = 0).
Proof.
  assert (Hrun : forall fuel v, SJFP.run fuel ps = Some v ->
            SJFP.mem v !! 1%nat = Some ps).
  { intros fuel v Hv. apply (loop_state_at ps fuel 0) in Hv as [k ->].
    apply state_at_inv. }
  split; [|split; [|split]].
  - intros k. destruct (state_at_inv ps k) as [Hc Hw Ha].
    split; [done|]. split; [|split].
    + unfold SJFP.elems. simpl. rewrite Hc. simpl. by rewrite drop_0, firstn_all.
    + by destruct Hw as [? _].
    + intros a Hact. by destruct (Ha a Hact) as [? _].
  - intros fuel v Hv. split; [by eapply Hrun|].
    apply totals_caller. by eapply Hrun.
  - intros fuel rep Hrep. unfold SJFPrioritySchedule in Hrep.
    destruct (SJFP.run fuel ps) as [v|] eqn:Hv; [|done].
    injection Hrep as <-. unfold SJFP.finish. simpl.
    by rewrite (totals_caller _ _ (Hrun _ _ Hv)).
  - intros Hzero. split; apply sum_field_zero.
    all: eapply Forall_impl; [exact Hzero|]; by intros p [? ?].
Qed.

Definition one_record : list SJFP.Process1 :=
  [SJFP.mkProcess1 "C" 2 0 1 false 0 0].

Lemma C6_witness :
  exists rep,
    SJFPrioritySchedule 2 one_record = Some rep /\
    SJFP.aveTurnaround rep
    = (Int64.to_float64 (sum_field SJFP.Turnaround one_record)
       / Int64.to_float64 (Z.of_nat (length one_record)))%float /\
    Forall (fun p => SJFP.Turnaround p = 0 /\ SJFP.Waiting p = 0) one_record /\
    sum_field SJFP.Turnaround one_record = 0.
Proof.
  eexists. split; [reflexivity|].
  pose proof (C6_caller_records_never_mutated one_record) as (_ & _ & Have & Hzero).
  split; [exact (proj1 (Have 2%nat _ eq_refl))|].
  assert (Hz : Forall (fun p => SJFP.Turnaround p = 0 /\ SJFP.Waiting p = 0)
                 one_record) by (repeat constructor).
  split; [exact Hz|]. exact (proj1 (Hzero Hz)).
Defined.

(** C2 on a batch of one record with burst 2 and priority 1: the copy that
    runs receives turnaround 2 and waiting 1 when it completes at tick 1,
    but the totals are taken over the caller's records, which still hold 0,
    so both reported averages are 0 where the claim has 2 and 1. *)
Theorem C2_reported_averages_miss_completions :
  exists v,
    SJFP.run 2 one_record = Some v /\
    SJFP.currentTime v = 2 /\
    SJFP.load (SJFP.mem v) (SJFP.mkPointer 2 0)
    = SJFP.mkProcess1 "C" 0 0 1 true 2 1 /\
    SJFP.totals (SJFP.caller_slice one_record) (SJFP.mem v) = (0, 0) /\
    SJFPrioritySchedule 2 one_record
    = Some (SJFP.mkReport 0%float 0%float 0.5%float).
Proof. eexists. repeat split; reflexivity. Qed.

(** C5, as the code has it: nothing is removed from the waiting set before
    it is sorted.  At every tick the list handed to [sort.Slice] is the list
    left waiting by the previous tick followed by a new copy of every
    record of the batch that is due, in input order, and the sort leaves a
    sorted rearrangement of exactly that list. *)
Theorem C5_waiting_set_is_not_deduplicated `{SJFP.GoRuntime}
    (ps : list SJFP.Process1) (k : nat) :
  let v := state_at ps k in
  let arrived_v := SJFP.arrive (SJFP.caller_slice ps) v in
  let sorted_v := SJFP.sort_waiting arrived_v in
  SJFP.elems (SJFP.mem arrived_v) (SJFP.waiting arrived_v)
  = SJFP.elems (SJFP.mem v) (SJFP.waiting v)
    ++ filter (due (SJFP.currentTime v)) ps /\
  Permutation (SJFP.elems (SJFP.mem sorted_v) (SJFP.waiting sorted_v))
              (SJFP.elems (SJFP.mem v) (SJFP.waiting v)
               ++ filter (due (SJFP.currentTime v)) ps) /\
  StronglySorted (fun a b => SJFP.Burst a <= SJFP.Burst b)
    (SJFP.elems (SJFP.mem sorted_v) (SJFP.waiting sorted_v)).
Proof.
  intros v arrived_v sorted_v.
  destruct (arrive_spec ps v (state_at_inv ps k)) as (Hinv1 & Hw1 & _).
  destruct (sort_waiting_spec ps arrived_v Hinv1) as (_ & Hw2 & _).
  fold arrived_v in Hw1. fold sorted_v in Hw2.
  change (SJFP.elems (SJFP.mem sorted_v) (SJFP.waiting sorted_v))
    with (sn_waiting (snap sorted_v)).
  change (SJFP.elems (SJFP.mem arrived_v) (SJFP.waiting arrived_v))
    with (sn_waiting (snap arrived_v)).
  change (SJFP.elems (SJFP.mem v) (SJFP.waiting v)) with (sn_waiting (snap v)).
  split; [done|]. rewrite Hw2, <- Hw1. split.
  - apply SJFP.sort_Slice_perm.
  - apply SJFP.sort_Slice_sorted.
Qed.

Definition two_records : list SJFP.Process1 :=
  [SJFP.mkProcess1 "A" 2 0 0 false 0 0; SJFP.mkProcess1 "B" 3 0 0 false 0 0].

(** On two records that arrive at tick 0, the list sorted at tick 1 holds
    the record named B twice: the one left waiting and its new copy. *)
Lemma C5_counterexample :
  let v := SJFP.arrive (SJFP.caller_slice two_records) (state_at two_records 1) in
  ~ NoDup (SJFP.Name <$> SJFP.elems (SJFP.mem v) (SJFP.waiting v)).
Proof.
  vm_compute. intros Hnd.
  apply NoDup_cons in Hnd as [Hnotin _]. apply Hnotin.
  rewrite !elem_of_cons. tauto.
Qed.

(** ** Termination of the tick loop *)

(** A record as the data model has it when a run starts: a positive burst,
    [int] fields, and not yet completed. *)
Definition valid1 (p : SJFP.Process1) : Prop :=
  1 <= SJFP.Burst p <= Int64.max_int /\ Int64.in_range (SJFP.Arrival p) /\
  SJFP.Completed p = false.

Section SJFP_termination.
Import SJFP.
Context {rt : GoRuntime}.
Variable ps : list Process1.
Hypothesis Hvalid : Forall valid1 ps.
Hypothesis Hn : Z.of_nat (length ps) <= Int64.max_int.

Definition snap_ok (s : snapshot) : Prop :=
  Forall (fun x => x ∈ ps) (sn_waiting s) /\
  (forall x, sn_active s = Some x -> 1 <= Burst x <= Int64.max_int) /\
  Int64.in_range (sn_time s) /\
  0 <= sn_completed s <= Z.of_nat (length ps).

(** Ticks until the first record of the batch is due. *)
Definition gap (t : Z) : Z :=
  match ps with
  | [] => 0
  | p0 :: _ => Z.max 0 (Arrival p0 - t)
  end.

(** What is left to do: completions still to count, then either the
    burst left to the active record or the wait for a record to pick. *)
Definition work_left (s : snapshot) : Z :=
  (Z.of_nat (length ps) - sn_completed s) * (2 ^ 63 + 2 ^ 64 + 2)
  + match sn_active s with
    | Some x => Burst x
    | None =>
        match sn_waiting s with
        | [] => 2 ^ 63 + 1 + gap (sn_time s)
        | _ :: _ => 2 ^ 63
        end
    end.

Lemma gap_bounds (t : Z) : Int64.in_range t -> 0 <= gap t <= 2 ^ 64.
Proof.
  unfold gap, Int64.in_range, Int64.min_int, Int64.max_int. intros Ht.
  destruct ps as [|p0 l]; [lia|].
  apply Forall_cons in Hvalid as [(_ & Ha & _) _].
  unfold Int64.in_range, Int64.min_int, Int64.max_int in Ha. lia.
Qed.

Lemma idle_gap (t : Z) :
  ps ≠ [] -> Int64.in_range t -> filter (due t) ps = [] ->
  Int64.in_range (t + 1) /\ gap (t + 1) < gap t.
Proof.
  unfold gap, Int64.in_range, Int64.min_int, Int64.max_int.
  intros Hps Ht Hnone. destruct ps as [|p0 l]; [done|].
  apply Forall_cons in Hvalid as [(_ & Ha & Hc) _].
  unfold Int64.in_range, Int64.min_int, Int64.max_int in Ha.
  assert (Hlate : t < Arrival p0).
  { destruct (Z.lt_ge_cases t (Arrival p0)) as [|Hle]; [done|].
    rewrite filter_cons_True in Hnone; [done|]. split; [done|lia]. }
  lia.
Qed.

Lemma sorted_elems (l : list Process1) :
  Forall (fun x => x ∈ ps) l -> Forall (fun x => x ∈ ps) (sort_Slice l).
Proof. intros Hl. by rewrite (sort_Slice_perm l). Qed.

Lemma burst_step (x : Process1) :
  1 <= Burst x <= Int64.max_int -> Int64.sub (Burst x) 1 = Burst x - 1.
Proof.
  intros Hb. apply wrap_small.
  unfold Int64.in_range, Int64.min_int, Int64.max_int in *. lia.
Qed.

Lemma run_view_decreases (s : snapshot) (x : Process1) (bound : Z) :
  sn_active s = Some x ->
  1 <= Burst x <= Int64.max_int -> Burst x <= bound ->
  Forall (fun y => y ∈ ps) (sn_waiting s) ->
  Int64.in_range (sn_time s) ->
  0 <= sn_completed s < Z.of_nat (length ps) ->
  let s' := run_view s in
  let s'' := mkSnapshot (sn_waiting s') (sn_active s') (sn_completed s')
                        (Int64.add (sn_time s') 1) in
  snap_ok s'' /\
  0 <= work_left s'' <
    (Z.of_nat (length ps) - sn_completed s) * (2 ^ 63 + 2 ^ 64 + 2) + bound.
Proof.
  intros Hact Hb Hbound Hw Ht Hc. unfold run_view. rewrite Hact.
  cbv zeta. rewrite (burst_step x Hb).
  pose proof (wrap_in_range (sn_time s + 1)) as Ht'.
  pose proof (gap_bounds _ Ht') as Hgap.
  destruct (Z.eqb_spec (Burst x - 1) 0) as [Hzero|Hpos]; simpl.
  - assert (Hc' : Int64.add (sn_completed s) 1 = sn_completed s + 1).
    { apply wrap_small.
      unfold Int64.in_range, Int64.min_int, Int64.max_int in *. lia. }
    split.
    + split; [done|]. split; [done|]. split; [done|]. simpl. lia.
    + unfold work_left. simpl. rewrite Hc'. unfold Int64.add.
      destruct (sn_waiting s); lia.
  - split.
    + split; [done|]. split; [|split; [done|simpl; lia]].
      simpl. intros y [= <-]. simpl. lia.
    + unfold work_left. simpl. lia.
Qed.

Lemma tick_view_decreases (s : snapshot) :
  snap_ok s -> sn_completed s < Z.of_nat (length ps) ->
  snap_ok (tick_view ps s) /\ 0 <= work_left (tick_view ps s) < work_left s.
Proof.
  intros (Hw & Ha & Ht & Hc) Hlt. unfold tick_view. cbv zeta.
  set (w1 := sort_Slice (sn_waiting s ++ filter (due (sn_time s)) ps)).
  assert (Hw1 : Forall (fun x => x ∈ ps) w1).
  { apply sorted_elems, Forall_app. split; [done|].
    apply Forall_forall. by intros x [_ ?]%list_elem_of_filter. }
  destruct (sn_active s) as [x|] eqn:Hact.
  - unfold select_view. simpl.
    destruct (run_view_decreases (mkSnapshot w1 (Some x) (sn_completed s)
                                    (sn_time s)) x (Burst x))
      as [Hok Hwork]; simpl; auto; try lia.
    split; [done|]. unfold work_left at 3. by rewrite Hact.
  - unfold select_view. simpl. destruct w1 as [|x w'] eqn:Hsorted.
    + assert (Hnil : sn_waiting s ++ filter (due (sn_time s)) ps = []).
      { apply Permutation_nil. rewrite <- Hsorted. apply sort_Slice_perm. }
      apply app_eq_nil in Hnil as [Hwnil Hnone].
      assert (Hps : ps ≠ []) by (intros ->; simpl in Hlt; lia).
      destruct (idle_gap _ Hps Ht Hnone) as [Ht1 Hgap].
      unfold run_view. simpl.
      assert (Hadd : Int64.add (sn_time s) 1 = sn_time s + 1)
        by by apply wrap_small.
      rewrite Hadd. split.
      * split; [done|]. split; [done|]. split; [done|]. simpl. lia.
      * unfold work_left. simpl. rewrite Hwnil, Hact.
        pose proof (gap_bounds _ Ht1). lia.
    + apply Forall_cons in Hw1 as [Hx Hw'].
      assert (Hb : 1 <= Burst x <= Int64.max_int).
      { by eapply Forall_forall in Hvalid as [? _]. }
      destruct (run_view_decreases (mkSnapshot w' (Some x) (sn_completed s)
                                      (sn_time s)) x (2 ^ 63 - 1))
        as [Hok Hwork]; simpl; auto; try lia.
      { unfold Int64.max_int in Hb. lia. }
      split; [done|]. unfold work_left at 3. rewrite Hact.
      pose proof (gap_bounds _ Ht). destruct (sn_waiting s); simpl in *; lia.
Qed.

Lemma SJFP_loop_terminates (m : nat) (v : vars) :
  SJFP_inv ps v -> snap_ok (snap v) -> work_left (snap v) <= Z.of_nat m ->
  exists fuel v', loop fuel (caller_slice ps) v = Some v'.
Proof.
  revert v. induction m as [|m IH]; intros v Hinv Hok Hwork.
  all: destruct (Z.ltb_spec (completed v) (Z.of_nat (length ps))) as [Hlt|Hge].
  all: try (exists 0%nat, v; simpl;
            by destruct (Z.ltb_spec (completed v) (Z.of_nat (length ps)));
            [lia|]).
  all: destruct (tick_spec ps v Hinv) as [Hinv' Hsnap].
  all: destruct (tick_view_decreases (snap v) Hok Hlt) as [Hok' Hwork'].
  all: rewrite <- Hsnap in Hok', Hwork'.
  - lia.
  - destruct (IH _ Hinv' Hok') as (fuel & v' & Hloop); [lia|].
    exists (S fuel), v'. simpl.
    by destruct (Z.ltb_spec (completed v) (Z.of_nat (length ps))); [|lia].
Qed.

Lemma SJFP_run_terminates : exists fuel v, run fuel ps = Some v.
Proof.
  unfold run.
  apply (SJFP_loop_terminates (Z.to_nat (work_left (snap (init ps))))).
  - apply SJFP_inv_init.
  - split; [constructor|]. split; [done|]. split; [by vm_compute|].
    simpl. lia.
  - lia.
Qed.
End SJFP_termination.

(** ** Claims about termination, empty batches and FCFS waiting times *)

Lemma one_record_valid : Forall valid1 one_record.
Proof.
  repeat constructor; simpl; unfold Int64.max_int, Int64.min_int; lia.
Qed.

Definition short_and_long : list SJFP.Process1 :=
  [SJFP.mkProcess1 "A" 1 0 0 false 0 0; SJFP.mkProcess1 "B" 5 0 0 false 0 0].

(** C9 on a record A of burst 1 and a record B of burst 5, both due at
    tick 0: the tick loop of [SJFPrioritySchedule] ends after two ticks
    with two completions counted, and both are copies of A.  The caller's
    record A is never marked completed, so a new copy of it is appended
    and picked at each tick; at no tick is B the active record, and every
    copy of B in memory still has its whole burst and is not completed.
    The loop ends, but not every process has run. *)
Theorem C9_sjfp_ends_with_a_process_never_run :
  exists v,
    SJFP.run 2 short_and_long = Some v /\
    SJFP.completed v = Z.of_nat (length short_and_long) /\
    SJFP.currentTime v = 2 /\
    SJFP.elems (SJFP.mem v) (SJFP.caller_slice short_and_long)
    = short_and_long /\
    SJFP.load (SJFP.mem v) (SJFP.mkPointer 3 0)
    = SJFP.mkProcess1 "A" 0 0 0 true 1 1 /\
    SJFP.load (SJFP.mem v) (SJFP.mkPointer 5 0)
    = SJFP.mkProcess1 "A" 0 0 0 true 2 2 /\
    Forall (Forall (fun x => SJFP.Name x = "B"%string ->
                             SJFP.Burst x = 5 /\ SJFP.Completed x = false))
           (SJFP.mem v) /\
    forall k, (k < 2)%nat ->
      exists a,
        SJFP.active (dispatched_at short_and_long k) = Some a /\
        SJFP.Name (SJFP.load (SJFP.mem (dispatched_at short_and_long k)) a)
        = "A"%string.
Proof.
  eexists. split; [reflexivity|]. split; [reflexivity|]. split; [reflexivity|].
  split; [reflexivity|]. split; [reflexivity|]. split; [reflexivity|].
  split; [repeat constructor; simpl; discriminate|].
  intros [|[|k]] Hk; [| |lia]; eexists; split; reflexivity.
Qed.

(** C3, as the code has it: no driver checks its batch.  On an empty batch
    each driver skips its loop and returns normally, with an empty
    timeline and table, and every statistic is the quotient 0/0, not a
    number. *)
Theorem C3_empty_batch_gives_nan `{SJFP.GoRuntime} (fuel : nat) :
  (let out := FCFSSchedule [] in
   out_gantt out = [] /\ out_schedule out = [] /\
   PrimFloat.is_nan (out_aveWait out) = true /\
   PrimFloat.is_nan (out_aveTurnaround out) = true /\
   PrimFloat.is_nan (out_aveThroughput out) = true) /\
  (exists out,
     SJFSchedule fuel [] = Some (Ok out) /\
     out_gantt out = [] /\ out_schedule out = [] /\
     PrimFloat.is_nan (out_aveWait out) = true /\
     PrimFloat.is_nan (out_aveTurnaround out) = true /\
     PrimFloat.is_nan (out_aveThroughput out) = true) /\
  (exists rep,
     SJFPrioritySchedule fuel [] = Some rep /\
     PrimFloat.is_nan (SJFP.aveTurnaround rep) = true /\
     PrimFloat.is_nan (SJFP.aveWaiting rep) = true /\
     PrimFloat.is_nan (SJFP.throughput rep) = true).
Proof.
  split; [|split].
  - by vm_compute.
  - eexists. split; [by destruct fuel|]. by vm_compute.
  - eexists. split; [by destruct fuel|]. by vm_compute.
Qed.

(** An empty batch does not make [FCFSSchedule] fail: it returns, and the
    average waiting time it returns is not a number. *)
Lemma C3_counterexample :
  exists out, FCFSSchedule [] = out /\
              PrimFloat.is_nan (out_aveWait out) = true.
Proof. eexists. split; [reflexivity|]. by vm_compute. Qed.

(** The waiting time that C1 gives to the process at position [i]. *)
Definition claimed_FCFS_wait (i : nat) (serviceClock arrivalTime : Z) : Z :=
  match i with
  | O => 0
  | S _ => Z.max 0 (serviceClock - arrivalTime)
  end.

(** C1 on the spec's own example, two processes that arrive at 0 with
    bursts 5 and 3: the second process meets the clock at 5, the claim
    gives it a wait of 5, and [FCFSSchedule] reports 0, the value left
    over from the first process, with completion 3 although its slice
    stops at 8.  On a single process that arrives at 3 the claim gives a
    wait of 0 and [FCFSSchedule] reports -3; in general the first row
    reports [0 - ArrivalTime] whenever the arrival time is positive. *)
Theorem C1_fcfs_waiting_differs_from_claim :
  (out_schedule (FCFSSchedule spec_batch) !! 1%nat
   = Some (Some (mkRow 2 1 3 0 0 3 3)) /\
   out_gantt (FCFSSchedule spec_batch) !! 1%nat = Some (mkTimeSlice 2 0 8) /\
   claimed_FCFS_wait 1 5 0 = 5) /\
  (out_schedule (FCFSSchedule [mkProcess 1 3 5 1]) !! 0%nat
   = Some (Some (mkRow 1 1 5 3 (-3) 2 5)) /\
   claimed_FCFS_wait 0 0 3 = 0) /\
  (forall p rest,
     exists r,
       out_schedule (FCFSSchedule (p :: rest)) !! 0%nat = Some (Some r) /\
       row_waiting r
       = if 0 <? ArrivalTime p then Int64.sub 0 (ArrivalTime p) else 0).
Proof.
  split; [by vm_compute|]. split; [by vm_compute|].
  intros p rest. unfold FCFSSchedule. simpl.
  rewrite FCFS_loop_before by lia. simpl. by eexists.
Qed.

Definition late_record : list SJFP.Process1 :=
  [SJFP.mkProcess1 "C" 2 1 0 false 0 0].

(** The turnaround that C8 gives a process that completes at
    [completionTime] and arrived at [arrivalTime]. *)
Definition claimed_turnaround (completionTime arrivalTime : Z) : Z :=
  completionTime - arrivalTime.

(** C8 on a batch of one record that arrives at 1 with burst 2: the record
    is idle at tick 0, runs in ticks 1 and 2 and completes at time 3, so
    the claim gives it the turnaround 3 - 1 = 2.  Line 212 writes that
    value, but into the copy in the waiting array; the caller's record
    keeps the turnaround 0 it came in with, and the average turnaround
    that [SJFPrioritySchedule] reports for this batch of one is 0. *)
Theorem C8_sjfp_reports_turnaround_it_never_wrote :
  exists v rep,
    SJFP.run 3 late_record = Some v /\
    SJFP.completed (state_at late_record 2) = 0 /\
    SJFP.completed (state_at late_record 3) = 1 /\
    SJFP.currentTime v = 3 /\
    claimed_turnaround 3 1 = 2 /\
    SJFP.load (SJFP.mem v) (SJFP.mkPointer 2 0)
    = SJFP.mkProcess1 "C" 0 1 0 true 2 2 /\
    SJFP.elems (SJFP.mem v) (SJFP.caller_slice late_record) = late_record /\
    SJFP.totals (SJFP.caller_slice late_record) (SJFP.mem v) = (0, 0) /\
    SJFPrioritySchedule 3 late_record = Some rep /\
    SJFP.aveTurnaround rep = 0%float.
Proof. eexists _, _. repeat split; reflexivity. Qed.

(** * Further properties of the drivers *)

(** ** FCFSSchedule: the clock, the waiting times and the timeline *)

(** The value of [serviceTime] when the process at position [i] is visited:
    the [int64] sum of the bursts in front of it. *)
Definition FCFS_clock (ps : list Process) (i : nat) : Z :=
  foldl (fun st p => Int64.add st (BurstDuration p)) 0 (take i ps).

(** The waiting time in row [j] of a table, 0 where there is no row. *)
Definition waiting_at (table : list (option Row)) (j : nat) : Z :=
  match table !! j with
  | Some (Some r) => row_waiting r
  | _ => 0
  end.

Lemma FCFS_loop_app (l1 l2 : list Process) (i : nat) (v : FCFS.vars) :
  FCFS.loop i (l1 ++ l2) v = FCFS.loop (i + length l1) l2 (FCFS.loop i l1 v).
Proof.
  revert i v. induction l1 as [|p l1 IH]; intros i v; simpl.
  - by rewrite Nat.add_0_r.
  - rewrite IH. f_equal. lia.
Qed.

Lemma FCFS_loop_serviceTime (l : list Process) (i : nat) (v : FCFS.vars) :
  FCFS.serviceTime (FCFS.loop i l v)
  = foldl (fun st p => Int64.add st (BurstDuration p)) (FCFS.serviceTime v) l.
Proof.
  revert i v. induction l as [|p l IH]; intros i v; simpl; [done|].
  by rewrite IH.
Qed.

Lemma FCFS_loop_gantt_length (l : list Process) (i : nat) (v : FCFS.vars) :
  length (FCFS.gantt (FCFS.loop i l v)) = (length (FCFS.gantt v) + length l)%nat.
Proof.
  revert i v. induction l as [|p l IH]; intros i v; simpl; [lia|].
  rewrite IH. simpl. rewrite length_app. simpl. lia.
Qed.

Lemma FCFS_loop_gantt_prefix (l : list Process) (i : nat) (v : FCFS.vars) :
  exists added, FCFS.gantt (FCFS.loop i l v) = FCFS.gantt v ++ added.
Proof.
  revert i v. induction l as [|p l IH]; intros i v; simpl.
  - exists []. by rewrite app_nil_r.
  - destruct (IH (S i) (FCFS.body i p v)) as [added ->]. simpl.
    eexists. by rewrite <- app_assoc.
Qed.

(** The variables when position [i] is reached, and what the visit of the
    process there leaves in the table and in the timeline. *)
Lemma FCFS_visit (ps : list Process) (i : nat) (p : Process) :
  ps !! i = Some p ->
  let before := FCFS.loop 0 (take i ps) (FCFS.init (length ps)) in
  let after := FCFS.body i p before in
  FCFS.serviceTime before = FCFS_clock ps i /\
  out_schedule (FCFSSchedule ps) !! i = FCFS.schedule after !! i /\
  FCFS.schedule after !! i
  = Some (Some (mkRow (ProcessID p) (Priority p) (BurstDuration p)
                      (ArrivalTime p) (FCFS.waitingTime after)
                      (Int64.add (BurstDuration p) (FCFS.waitingTime after))
                      (Int64.add (Int64.add (BurstDuration p) (ArrivalTime p))
                                 (FCFS.waitingTime after)))) /\
  out_gantt (FCFSSchedule ps) !! i
  = Some (mkTimeSlice (ProcessID p)
            (Int64.add (FCFS.waitingTime after) (ArrivalTime p))
            (FCFS_clock ps (S i))).
Proof.
  intros Hp before after.
  assert (Hi : (i < length ps)%nat) by by eapply lookup_lt_Some.
  assert (Hsplit : ps = take i ps ++ p :: drop (S i) ps).
  { by rewrite take_drop_middle. }
  assert (Hlen : length (take i ps) = i) by (rewrite length_take; lia).
  assert (Hclock : FCFS.serviceTime before = FCFS_clock ps i).
  { unfold before. by rewrite FCFS_loop_serviceTime. }
  assert (Hrun : FCFS.loop 0 ps (FCFS.init (length ps))
                 = FCFS.loop (S i) (drop (S i) ps) after).
  { rewrite Hsplit at 1. rewrite FCFS_loop_app, Hlen. done. }
  split; [done|]. split; [|split].
  - unfold FCFSSchedule. simpl. rewrite Hrun. apply FCFS_loop_before. lia.
  - simpl. apply list_lookup_insert_eq.
    unfold before. rewrite FCFS_loop_length. simpl. by rewrite length_replicate.
  - unfold FCFSSchedule. simpl. rewrite Hrun.
    destruct (FCFS_loop_gantt_prefix (drop (S i) ps) (S i) after) as [added ->].
    assert (Hg : length (FCFS.gantt before) = i).
    { unfold before. rewrite FCFS_loop_gantt_length. simpl. lia. }
    simpl. rewrite <- app_assoc, lookup_app_r by lia. rewrite Hg, Nat.sub_diag.
    simpl. do 2 f_equal. rewrite Hclock. unfold FCFS_clock.
    rewrite (take_S_r _ _ _ Hp), foldl_app. done.
Qed.

Lemma FCFS_waiting_before (ps : list Process) (i : nat) :
  (i <= length ps)%nat ->
  FCFS.waitingTime (FCFS.loop 0 (take i ps) (FCFS.init (length ps)))
  = match i with
    | O => 0
    | S j => waiting_at (out_schedule (FCFSSchedule ps)) j
    end.
Proof.
  destruct i as [|j]; [done|]. intros Hj.
  destruct (lookup_lt_is_Some_2 ps j) as [q Hq]; [lia|].
  destruct (FCFS_visit ps j q Hq) as (_ & Htab & Hrow & _).
  unfold waiting_at. rewrite Htab, Hrow. simpl.
  rewrite (take_S_r _ _ _ Hq), FCFS_loop_app. simpl. done.
Qed.

Lemma FCFS_row_waiting (ps : list Process) (i : nat) (p : Process) :
  ps !! i = Some p ->
  exists r,
    out_schedule (FCFSSchedule ps) !! i = Some (Some r) /\
    row_waiting r
    = (if 0 <? ArrivalTime p
       then Int64.sub (FCFS_clock ps i) (ArrivalTime p)
       else match i with
            | O => 0
            | S j => waiting_at (out_schedule (FCFSSchedule ps)) j
            end).
Proof.
  intros Hp. destruct (FCFS_visit ps i p Hp) as (Hclock & Htab & Hrow & _).
  eexists. split; [by rewrite Htab, Hrow|]. simpl.
  rewrite Hclock, FCFS_waiting_before; [done|].
  apply lookup_lt_Some in Hp. lia.
Qed.

(** X1: in the table of [FCFSSchedule] the waiting time of the process at
    position [i] is the clock minus its arrival time, in [int64] arithmetic
    and without a lower bound, when its arrival time is positive; otherwise
    it is the waiting time of the row before it, and 0 in the first row.
    The turnaround and the completion are the burst, and the burst plus
    the arrival time, added to that waiting time. *)
Theorem X1_fcfs_waiting_times (ps : list Process) (i : nat) (p : Process) :
  ps !! i = Some p ->
  exists r,
    out_schedule (FCFSSchedule ps) !! i = Some (Some r) /\
    row_waiting r
    = (if 0 <? ArrivalTime p
       then Int64.sub (FCFS_clock ps i) (ArrivalTime p)
       else match i with
            | O => 0
            | S j => waiting_at (out_schedule (FCFSSchedule ps)) j
            end) /\
    row_turnaround r = Int64.add (BurstDuration p) (row_waiting r) /\
    row_completion r
    = Int64.add (Int64.add (BurstDuration p) (ArrivalTime p)) (row_waiting r).
Proof.
  intros Hp. destruct (FCFS_visit ps i p Hp) as (Hclock & Htab & Hrow & _).
  eexists. split; [by rewrite Htab, Hrow|]. simpl. split; [|done].
  rewrite Hclock, FCFS_waiting_before; [done|].
  apply lookup_lt_Some in Hp. lia.
Qed.

Lemma X1_witness :
  spec_batch !! 1%nat = Some (mkProcess 2 0 3 1) /\
  exists r,
    out_schedule (FCFSSchedule spec_batch) !! 1%nat = Some (Some r) /\
    row_waiting r = waiting_at (out_schedule (FCFSSchedule spec_batch)) 0.
Proof.
  split; [reflexivity|].
  destruct (X1_fcfs_waiting_times spec_batch 1 (mkProcess 2 0 3 1) eq_refl)
    as (r & Hr & Hw & _).
  exists r. split; [exact Hr|exact Hw].
Defined.

Lemma FCFS_clock_in_range (ps : list Process) (i : nat) :
  Int64.in_range (FCFS_clock ps i).
Proof.
  unfold FCFS_clock. generalize (take i ps). intros l.
  induction l as [|p l IH] using rev_ind; simpl.
  - by vm_compute.
  - rewrite foldl_app. simpl. apply wrap_in_range.
Qed.

(** X2: the timeline of [FCFSSchedule] has one slice per process, in input
    order.  The slice of the process at position [i] stops at the [int64]
    sum of the bursts up to and including its own, whatever the arrival
    times are, and when its arrival time is positive it starts at the sum
    of the bursts in front of it, where the slice before it stopped: the
    driver models no idle time. *)
Theorem X2_fcfs_timeline (ps : list Process) (i : nat) (p : Process) :
  ps !! i = Some p ->
  length (out_gantt (FCFSSchedule ps)) = length ps /\
  exists s,
    out_gantt (FCFSSchedule ps) !! i = Some s /\
    PID s = ProcessID p /\
    Stop s = FCFS_clock ps (S i) /\
    FCFS_clock ps (S i) = Int64.add (FCFS_clock ps i) (BurstDuration p) /\
    (0 < ArrivalTime p -> Start s = FCFS_clock ps i).
Proof.
  intros Hp. split.
  { unfold FCFSSchedule. simpl. by rewrite FCFS_loop_gantt_length. }
  destruct (FCFS_visit ps i p Hp) as (Hclock & _ & _ & Hslice).
  eexists. split; [exact Hslice|]. simpl. split; [done|]. split; [done|]. split.
  - unfold FCFS_clock. by rewrite (take_S_r _ _ _ Hp), foldl_app.
  - intros Hpos. destruct (Z.ltb_spec 0 (ArrivalTime p)); [|lia].
    rewrite Hclock. unfold Int64.add, Int64.sub.
    rewrite wrap_add_l, Z.sub_add. apply wrap_small, FCFS_clock_in_range.
Qed.

Definition staggered_batch : list Process :=
  [mkProcess 1 0 5 1; mkProcess 2 3 3 1; mkProcess 3 6 4 1].

Lemma X2_witness :
  staggered_batch !! 1%nat = Some (mkProcess 2 3 3 1) /\
  exists s,
    out_gantt (FCFSSchedule staggered_batch) !! 1%nat = Some s /\
    Stop s = 8 /\ (0 < 3 -> Start s = 5).
Proof.
  split; [reflexivity|].
  destruct (X2_fcfs_timeline staggered_batch 1 (mkProcess 2 3 3 1) eq_refl)
    as (_ & s & Hs & _ & Hstop & _ & Hstart).
  exists s. split; [exact Hs|]. split; [exact Hstop|exact Hstart].
Defined.

(** A batch on which the guard of line 40 acts like a guard on the position:
    the first process arrives at 0 or before, and every later process has a
    positive arrival time that the clock has reached when its turn comes. *)
Definition FCFS_in_step (ps : list Process) : Prop :=
  forall i p, ps !! i = Some p ->
    match i with
    | O => ArrivalTime p <= 0
    | S _ => 0 < ArrivalTime p <= FCFS_clock ps i
    end.

(** X3: on a batch whose first process arrives at 0 or before and whose
    later processes each have a positive arrival time not after the clock
    at their turn, [FCFSSchedule] reports the waiting time 0 for the first
    process and the clock minus the arrival time, which is not negative,
    for every other one. *)
Theorem X3_fcfs_waiting_in_step (ps : list Process) (i : nat) (p : Process) :
  FCFS_in_step ps ->
  ps !! i = Some p ->
  exists r,
    out_schedule (FCFSSchedule ps) !! i = Some (Some r) /\
    row_waiting r
    = match i with
      | O => 0
      | S _ => Z.max 0 (FCFS_clock ps i - ArrivalTime p)
      end /\
    0 <= row_waiting r.
Proof.
  intros Hstep Hp.
  destruct (FCFS_row_waiting ps i p Hp) as (r & Hr & Hw).
  exists r. split; [done|]. specialize (Hstep i p Hp).
  pose proof (FCFS_clock_in_range ps i) as Hrange.
  unfold Int64.in_range, Int64.min_int, Int64.max_int in Hrange.
  destruct i as [|j].
  - destruct (Z.ltb_spec 0 (ArrivalTime p)); [lia|]. rewrite Hw. lia.
  - destruct (Z.ltb_spec 0 (ArrivalTime p)); [|lia].
    assert (Hsub : Int64.sub (FCFS_clock ps (S j)) (ArrivalTime p)
                   = FCFS_clock ps (S j) - ArrivalTime p).
    { apply wrap_small.
      unfold Int64.in_range, Int64.min_int, Int64.max_int. lia. }
    rewrite Hw, Hsub. lia.
Qed.

Lemma staggered_in_step : FCFS_in_step staggered_batch.
Proof.
  intros [|[|[|i]]] p; simpl; intros [= <-]; simpl; [lia| |]; by vm_compute.
Qed.

Lemma X3_witness :
  FCFS_in_step staggered_batch /\
  staggered_batch !! 2%nat = Some (mkProcess 3 6 4 1) /\
  exists r,
    out_schedule (FCFSSchedule staggered_batch) !! 2%nat = Some (Some r) /\
    row_waiting r = Z.max 0 (FCFS_clock staggered_batch 2 - 6).
Proof.
  split; [exact staggered_in_step|]. split; [reflexivity|].
  destruct (X3_fcfs_waiting_in_step staggered_batch 2 (mkProcess 3 6 4 1)
              staggered_in_step eq_refl) as (r & Hr & Hw & _).
  exists r. split; [exact Hr|exact Hw].
Defined.

(** The [float64] sum of a column of the table, added up from the first
    row on, and the completion time in its last row. *)
Definition float_sum (f : Row -> Z) (table : list (option Row)) : float :=
  foldl (fun acc r =>
           match r with
           | Some r => (acc + Int64.to_float64 (f r))%float
           | None => acc
           end) 0%float table.

Definition last_completion (table : list (option Row)) : float :=
  match last table with
  | Some (Some r) => Int64.to_float64 (row_completion r)
  | _ => 0%float
  end.

Lemma FCFS_totals_upto (ps : list Process) (k : nat) :
  (k <= length ps)%nat ->
  let v := FCFS.loop 0 (take k ps) (FCFS.init (length ps)) in
  let table := out_schedule (FCFSSchedule ps) in
  FCFS.totalWait v = float_sum row_waiting (take k table) /\
  FCFS.totalTurnaround v = float_sum row_turnaround (take k table) /\
  FCFS.lastCompletion v = last_completion (take k table).
Proof.
  induction k as [|k IH]; intros Hk; [by vm_compute|].
  destruct (lookup_lt_is_Some_2 ps k) as [p Hp]; [lia|].
  destruct IH as (Hw & Ht & _); [lia|].
  destruct (FCFS_visit ps k p Hp) as (_ & Htab & Hrow & _).
  rewrite Hrow in Htab. cbv zeta.
  rewrite (take_S_r _ _ _ Hp), FCFS_loop_app, (take_S_r _ _ _ Htab).
  unfold float_sum, last_completion. rewrite !foldl_app, last_snoc. simpl.
  unfold float_sum in Hw, Ht. simpl in Hw, Ht. by rewrite <- Hw, <- Ht.
Qed.

(** X4: the statistics of [FCFSSchedule] are computed from its table: the
    average waiting time and the average turnaround are the [float64] sums
    of those columns, added up in row order, divided by the number of
    processes, and the throughput is that number divided by the completion
    time of the last row (by 0 when there is no row). *)
Theorem X4_fcfs_statistics (ps : list Process) :
  let out := FCFSSchedule ps in
  let count := Int64.to_float64 (Z.of_nat (length ps)) in
  out_aveWait out = (float_sum row_waiting (out_schedule out) / count)%float /\
  out_aveTurnaround out
  = (float_sum row_turnaround (out_schedule out) / count)%float /\
  out_aveThroughput out = (count / last_completion (out_schedule out))%float.
Proof.
  destruct (FCFS_totals_upto ps (length ps) (le_n _)) as (Hw & Ht & Hc).
  assert (Hlen : length (out_schedule (FCFSSchedule ps)) = length ps).
  { unfold FCFSSchedule. simpl. rewrite FCFS_loop_length. simpl.
    apply length_replicate. }
  assert (Htake : take (length ps) (out_schedule (FCFSSchedule ps))
                  = out_schedule (FCFSSchedule ps)).
  { rewrite <- Hlen. apply firstn_all. }
  rewrite firstn_all, Htake in Hw, Ht, Hc.
  cbv zeta. rewrite <- Hw, <- Ht, <- Hc. done.
Qed.

(** ** findShortestJob and removeProcess on any pool *)

(** The first process of a pool, if there is one, has not arrived. *)
Definition head_not_arrived (pool : list Process) (t : Z) : Prop :=
  match pool with
  | [] => True
  | r :: _ => t < ArrivalTime r
  end.

Lemma scanned_split (remaining : list Process) (t : Z) :
  exists rest,
    remaining = scanned remaining t ++ rest /\ head_not_arrived rest t.
Proof.
  induction remaining as [|r l (rest & IH & Hrest)]; simpl; [by exists []|].
  destruct (Z.ltb_spec t (ArrivalTime r)); [by exists (r :: l)|].
  exists rest. simpl. by rewrite <- IH.
Qed.

(** X5: on any pool, sorted or not, [findShortestJob] looks only at the
    processes in front of the first one that has not arrived.  It returns
    nothing exactly when the pool is empty or its first process has not
    arrived; otherwise it returns the first process of least burst among
    those it looked at, all of which have arrived. *)
Theorem X5_findShortestJob_scan (remaining : list Process) (t : Z) :
  (findShortestJob remaining t = None <-> head_not_arrived remaining t) /\
  forall p, findShortestJob remaining t = Some p ->
    exists l1 l2 rest,
      remaining = l1 ++ p :: l2 ++ rest /\
      Forall (arrived t) (l1 ++ p :: l2) /\
      head_not_arrived rest t /\
      Forall (fun q => BurstDuration p < BurstDuration q) l1 /\
      Forall (fun q => BurstDuration p <= BurstDuration q) l2.
Proof.
  split.
  - rewrite findShortestJob_None. destruct remaining as [|r l]; simpl; [done|].
    destruct (Z.ltb_spec t (ArrivalTime r)); split; try done; lia.
  - intros p (l1 & l2 & Hs & H1 & H2)%findShortestJob_Some.
    destruct (scanned_split remaining t) as (rest & Hrem & Hrest).
    pose proof (scanned_arrived remaining t) as Harr.
    rewrite Hs in Hrem, Harr. exists l1, l2, rest.
    split; [by rewrite Hrem, <- !app_assoc|]. done.
Qed.

(** A pool that is not sorted by arrival: the job of burst 1 has arrived at
    tick 5, but it stands behind a process that has not. *)
Definition unsorted_pool : list Process :=
  [mkProcess 1 0 4 1; mkProcess 2 9 2 1; mkProcess 3 1 1 1].

Lemma X5_witness :
  findShortestJob unsorted_pool 5 = Some (mkProcess 1 0 4 1) /\
  exists l1 l2 rest,
    unsorted_pool = l1 ++ mkProcess 1 0 4 1 :: l2 ++ rest /\
    head_not_arrived rest 5.
Proof.
  split; [reflexivity|].
  destruct (proj2 (X5_findShortestJob_scan unsorted_pool 5) _ eq_refl)
    as (l1 & l2 & rest & Hsplit & _ & Hrest & _).
  exists l1, l2, rest. split; [exact Hsplit|exact Hrest].
Defined.

(** X6: [removeProcess] keeps, in their order, exactly the processes whose
    id differs from the id of the given one, so it drops every process
    that shares that id; when the ids of the pool are distinct and the
    process is in the pool, it drops that process and nothing else. *)
Theorem X6_removeProcess_by_id (processes : list Process) (process : Process) :
  sublist (removeProcess processes process) processes /\
  (forall q, q ∈ removeProcess processes process <->
             q ∈ processes /\ ProcessID q ≠ ProcessID process) /\
  (NoDup (ProcessID <$> processes) -> process ∈ processes ->
   Permutation processes (process :: removeProcess processes process) /\
   S (length (removeProcess processes process)) = length processes).
Proof.
  split; [apply sublist_filter|]. split; [apply removeProcess_elem|].
  intros Hnd Hin.
  assert (Hperm : Permutation processes
                    (process :: removeProcess processes process)).
  { unfold removeProcess. induction processes as [|q l IH];
      [by apply elem_of_nil in Hin|].
    simpl in Hnd. apply NoDup_cons in Hnd as [Hq Hnd].
    apply elem_of_cons in Hin as [<-|Hin].
    - rewrite filter_cons_False by tauto.
      assert (Hall : filter (fun p => ProcessID p ≠ ProcessID process) l = l).
      { clear IH Hnd. induction l as [|x l IHl]; [done|].
        rewrite filter_cons_True.
        - f_equal. apply IHl. intros Hx. apply Hq. by right.
        - intros Heq. apply Hq. rewrite <- Heq. by left. }
      by rewrite Hall.
    - rewrite filter_cons_True.
      + rewrite (IH Hnd Hin) at 1. apply perm_swap.
      + intros Heq. apply Hq. rewrite Heq. by apply list_elem_of_fmap_2. }
  split; [done|]. by rewrite (Permutation_length Hperm).
Qed.

Lemma X6_witness :
  NoDup (ProcessID <$> unsorted_pool) /\
  mkProcess 2 9 2 1 ∈ unsorted_pool /\
  S (length (removeProcess unsorted_pool (mkProcess 2 9 2 1)))
  = length unsorted_pool.
Proof.
  assert (Hnd : NoDup (ProcessID <$> unsorted_pool)).
  { simpl. repeat (apply NoDup_cons; split);
      [rewrite ?elem_of_cons, elem_of_nil; lia ..|apply NoDup_nil_2]. }
  assert (Hin : mkProcess 2 9 2 1 ∈ unsorted_pool).
  { unfold unsorted_pool. rewrite !elem_of_cons. tauto. }
  split; [exact Hnd|]. split; [exact Hin|].
  exact (proj2 (proj2 (proj2 (X6_removeProcess_by_id unsorted_pool
                                (mkProcess 2 9 2 1))) Hnd Hin)).
Defined.

(** ** SJFSchedule: the timeline and its agreement with the table *)

(** The slice and the row that [SJF.dispatch] writes agree. *)
Definition row_matches_slice (r : Row) (s : TimeSlice) : Prop :=
  PID s = row_id r /\
  Stop s = row_completion r /\
  row_completion r = Int64.add (row_burst r) (Start s) /\
  row_waiting r = Z.max 0 (Int64.sub (Start s) (row_arrival r)) /\
  row_turnaround r = Int64.add (row_burst r) (row_waiting r).

Definition slice_of_process (ps : list Process) (s : TimeSlice) : Prop :=
  exists p, p ∈ ps /\ PID s = ProcessID p /\ ArrivalTime p <= Start s /\
            Stop s = Int64.add (BurstDuration p) (Start s).

Record SJF_gantt_inv (ps : list Process) (v : SJF.vars) : Prop := {
  gi_sub : forall q, q ∈ SJF.remaining v -> q ∈ ps;
  gi_slices : forall s, s ∈ SJF.gantt v ->
    slice_of_process ps s /\
    forall q, q ∈ SJF.remaining v -> ProcessID q ≠ PID s;
  gi_nodup : NoDup (PID <$> SJF.gantt v);
  gi_cover : forall p, p ∈ ps ->
    p ∈ SJF.remaining v \/ ProcessID p ∈ PID <$> SJF.gantt v;
  gi_rows : forall i r, SJF.schedule v !! i = Some (Some r) ->
    exists s, s ∈ SJF.gantt v /\ row_matches_slice r s
}.

Lemma SJF_gantt_inv_reachable (ps : list Process) (v : SJF.vars) :
  SJF_reachable ps v -> SJF_gantt_inv ps v.
Proof.
  induction 1 as [|v v' _ [Hsub Hsl Hnd Hcov Hrows] _ Hbody].
  - split; simpl.
    + intros q Hq. by rewrite (SliceStable_perm ArrivalTime ps) in Hq.
    + intros s Hs. by apply elem_of_nil in Hs.
    + apply NoDup_nil_2.
    + intros p Hp. left. by rewrite (SliceStable_perm ArrivalTime ps).
    + intros i r Hr. apply lookup_replicate in Hr as [[=] _].
  - unfold SJF.body in Hbody.
    destruct (findShortestJob _ _) as [process|] eqn:Hfind;
      [|injection Hbody as <-; by split].
    apply findShortestJob_elem in Hfind as [Hin Harr].
    unfold SJF.dispatch in Hbody. destruct (SJF.index_ok _ _); [|done].
    injection Hbody as <-.
    set (new := mkTimeSlice (ProcessID process) (SJF.serviceTime v)
                  (Int64.add (BurstDuration process) (SJF.serviceTime v))).
    split; simpl.
    + intros q [Hq _]%removeProcess_elem. by apply Hsub.
    + intros s [Hs|Hs%list_elem_of_singleton]%elem_of_app.
      * destruct (Hsl s Hs) as [Hp Hfresh]. split; [done|].
        intros q [Hq _]%removeProcess_elem. by apply Hfresh.
      * subst s. split.
        -- exists process. split; [by apply Hsub|]. by repeat split.
        -- by intros q [_ Hq]%removeProcess_elem.
    + rewrite fmap_app. apply NoDup_app. split; [done|]. split.
      * intros id Hid Hnew. simpl in Hnew.
        apply list_elem_of_singleton in Hnew as ->.
        apply list_elem_of_fmap in Hid as (s & Hpid & Hs).
        destruct (Hsl s Hs) as [_ Hfresh]. by apply (Hfresh process Hin).
      * simpl. apply NoDup_singleton.
    + intros p Hp. rewrite fmap_app, elem_of_app. simpl.
      destruct (decide (ProcessID p = ProcessID process)) as [Heq|Hne].
      * right. right. rewrite Heq. by apply list_elem_of_singleton.
      * destruct (Hcov p Hp) as [Hrem|Hg]; [left|right; by left].
        by apply removeProcess_elem.
    + intros i r Hr.
      destruct (decide (i = Z.to_nat (SJF.row_index process))) as [->|Hi].
      * destruct (decide (Z.to_nat (SJF.row_index process)
                          < length (SJF.schedule v))%nat) as [Hlt|Hge].
        -- rewrite list_lookup_insert_eq in Hr by done. injection Hr as <-.
           exists new. split; [apply elem_of_app; right; by left|].
           unfold row_matches_slice. simpl. repeat split.
           destruct (Z.ltb_spec
                       (Int64.sub (SJF.serviceTime v) (ArrivalTime process)) 0);
             lia.
        -- rewrite list_insert_ge in Hr by lia.
           destruct (Hrows _ r Hr) as (s & Hs & Hm).
           exists s. split; [apply elem_of_app; by left|done].
      * rewrite list_lookup_insert_ne in Hr by done.
        destruct (Hrows i r Hr) as (s & Hs & Hm).
        exists s. split; [apply elem_of_app; by left|done].
Qed.

Lemma SJF_run_gantt (ps : list Process) (fuel : nat) (out : Output) :
  SJFSchedule fuel ps = Some (Ok out) ->
  exists v, SJF_gantt_inv ps v /\ SJF.remaining v = [] /\
            out_gantt out = SJF.gantt v /\ out_schedule out = SJF.schedule v.
Proof.
  unfold SJFSchedule.
  destruct (SJF.loop fuel (SJF.init ps)) as [[v|]|] eqn:Hloop; [|done..].
  intros [= <-].
  eapply SJF_loop_reachable in Hloop as [Hreach Hrem]; [|constructor].
  exists v. split; [by apply SJF_gantt_inv_reachable|]. by repeat split.
Qed.

(** X7: when [SJFSchedule] returns, its timeline holds exactly one slice
    for every process id of the batch, so processes that share an id with
    a dispatched one never run; every slice belongs to a process of the
    batch, does not start before that process has arrived, and stops its
    burst later in [int64] arithmetic. *)
Theorem X7_sjf_timeline (ps : list Process) (fuel : nat) (out : Output) :
  SJFSchedule fuel ps = Some (Ok out) ->
  NoDup (PID <$> out_gantt out) /\
  (forall id, id ∈ PID <$> out_gantt out <-> id ∈ ProcessID <$> ps) /\
  Forall (slice_of_process ps) (out_gantt out).
Proof.
  intros (v & [Hsub Hsl Hnd Hcov Hrows] & Hrem & -> & _)%SJF_run_gantt.
  split; [done|]. split.
  - intros id. split.
    + intros (s & -> & Hs)%list_elem_of_fmap.
      destruct (Hsl s Hs) as [(p & Hp & -> & _) _].
      by apply list_elem_of_fmap_2.
    + intros (p & -> & Hp)%list_elem_of_fmap.
      destruct (Hcov p Hp) as [Hin|Hg]; [|done].
      rewrite Hrem in Hin. by apply elem_of_nil in Hin.
  - apply Forall_forall. intros s Hs. by destruct (Hsl s Hs).
Qed.

(** Two processes with the id 1: only one of them is dispatched. *)
Definition shared_id_batch : list Process :=
  [mkProcess 1 0 5 1; mkProcess 1 2 3 1].

Lemma X7_witness :
  exists out,
    SJFSchedule 2 shared_id_batch = Some (Ok out) /\
    NoDup (PID <$> out_gantt out) /\
    Forall (slice_of_process shared_id_batch) (out_gantt out).
Proof.
  eexists. split; [reflexivity|].
  destruct (X7_sjf_timeline shared_id_batch 2 _ eq_refl) as (Hnd & _ & Hall).
  split; [exact Hnd|exact Hall].
Defined.

(** X8: when [SJFSchedule] returns, every row of its table has a slice of
    the timeline with the same id whose stop is the row's completion time;
    the completion is the burst added to the slice's start, the waiting
    time is the start minus the arrival time cut off at 0, so it is never
    negative, and the turnaround is the burst plus the waiting time. *)
Theorem X8_sjf_table_matches_timeline (ps : list Process) (fuel : nat)
    (out : Output) (i : nat) (r : Row) :
  SJFSchedule fuel ps = Some (Ok out) ->
  out_schedule out !! i = Some (Some r) ->
  0 <= row_waiting r /\
  exists s, s ∈ out_gantt out /\ row_matches_slice r s.
Proof.
  intros (v & [_ _ _ _ Hrows] & _ & -> & ->)%SJF_run_gantt Hr.
  destruct (Hrows i r Hr) as (s & Hs & Hm). split; [|by exists s].
  destruct Hm as (_ & _ & _ & -> & _). lia.
Qed.

Lemma X8_witness :
  exists out r,
    SJFSchedule 2 reversed_batch = Some (Ok out) /\
    out_schedule out !! 0%nat = Some (Some r) /\
    0 <= row_waiting r /\
    exists s, s ∈ out_gantt out /\ row_matches_slice r s.
Proof.
  eexists _, _. split; [reflexivity|]. split; [reflexivity|].
  exact (X8_sjf_table_matches_timeline reversed_batch 2 _ 0 _ eq_refl eq_refl).
Defined.

(** ** SJFSchedule: the processor is never double-booked *)

Definition total_burst (ps : list Process) : Z :=
  foldr (fun p acc => BurstDuration p + acc) 0 ps.

(** A batch whose clock cannot overflow: arrival times between 0 and
    [latest], bursts that are not negative, and [latest] plus all bursts
    within [int64]. *)
Definition SJF_bounded (ps : list Process) (latest : Z) : Prop :=
  0 <= latest /\
  Forall (fun p => 0 <= ArrivalTime p <= latest /\ 0 <= BurstDuration p) ps /\
  latest + total_burst ps <= Int64.max_int.

Definition slice_exact (ps : list Process) (s : TimeSlice) : Prop :=
  exists p, p ∈ ps /\ PID s = ProcessID p /\ ArrivalTime p <= Start s /\
            Stop s = Start s + BurstDuration p.

Lemma total_burst_perm (l1 l2 : list Process) :
  Permutation l1 l2 -> total_burst l1 = total_burst l2.
Proof. induction 1; simpl; lia. Qed.

Lemma total_burst_nonneg (l : list Process) :
  Forall (fun p => 0 <= BurstDuration p) l -> 0 <= total_burst l.
Proof. induction 1; simpl; lia. Qed.

Lemma total_burst_remove (l : list Process) (process : Process) :
  Forall (fun p => 0 <= BurstDuration p) l -> process ∈ l ->
  total_burst (removeProcess l process) + BurstDuration process
  <= total_burst l.
Proof.
  unfold removeProcess. intros Hall Hin.
  assert (Hle : forall l, Forall (fun p => 0 <= BurstDuration p) l ->
            total_burst (filter (fun p => ProcessID p ≠ ProcessID process) l)
            <= total_burst l).
  { clear. induction 1 as [|q l Hq _ IH]; [done|].
    rewrite filter_cons. case_decide; simpl; lia. }
  induction Hall as [|q l Hq Hall IH]; [by apply elem_of_nil in Hin|].
  apply elem_of_cons in Hin as [<-|Hin].
  - rewrite filter_cons_False by tauto. simpl. specialize (Hle l Hall). lia.
  - specialize (IH Hin). rewrite filter_cons. case_decide; simpl; lia.
Qed.

Lemma StronglySorted_snoc {A : Type} (R : A -> A -> Prop) (l : list A) (x : A) :
  StronglySorted R l -> Forall (fun y => R y x) l -> StronglySorted R (l ++ [x]).
Proof.
  induction 1 as [|y l Hl IH Hy]; intros Hx; simpl.
  - repeat constructor.
  - apply Forall_cons in Hx as [Hyx Hx]. constructor; [by apply IH|].
    apply Forall_app. split; [done|]. by constructor.
Qed.

Record SJF_time_inv (ps : list Process) (latest : Z) (v : SJF.vars) : Prop := {
  ti_time : 0 <= SJF.serviceTime v;
  ti_pool : total_burst (SJF.remaining v) <= total_burst ps;
  ti_room : SJF.serviceTime v + total_burst (SJF.remaining v)
            <= latest + total_burst ps;
  ti_elems : forall q, q ∈ SJF.remaining v -> q ∈ ps;
  ti_past : Forall (fun s => Stop s <= SJF.serviceTime v) (SJF.gantt v);
  ti_order : StronglySorted (fun s1 s2 => Stop s1 <= Start s2) (SJF.gantt v);
  ti_exact : Forall (slice_exact ps) (SJF.gantt v)
}.

Lemma SJF_time_inv_reachable (ps : list Process) (latest : Z) (v : SJF.vars) :
  SJF_bounded ps latest -> SJF_reachable ps v -> SJF_time_inv ps latest v.
Proof.
  intros (Hlatest & Hall & Hmax).
  assert (Hburst : forall l, (forall q, q ∈ l -> q ∈ ps) ->
            Forall (fun p => 0 <= BurstDuration p) l).
  { intros l Hl. apply Forall_forall. intros q Hq%Hl.
    by eapply Forall_forall in Hall as [_ ?]. }
  pose proof (total_burst_nonneg ps (Hburst ps (fun q H => H))) as Hps.
  induction 1 as [|v v' _ [Ht Hpool Hroom Hel Hpast Hord Hex] Hne Hbody].
  - assert (Hsum : total_burst (SliceStable byArrivalTime ps) = total_burst ps).
    { apply total_burst_perm, (SliceStable_perm ArrivalTime). }
    split; simpl; try (by constructor); try lia.
    intros q Hq. by rewrite (SliceStable_perm ArrivalTime ps) in Hq.
  - unfold SJF.body in Hbody.
    destruct (findShortestJob _ _) as [process|] eqn:Hfind.
    + pose proof Hfind as [Hin Harr]%findShortestJob_elem.
      unfold SJF.dispatch in Hbody. destruct (SJF.index_ok _ _); [|done].
      injection Hbody as <-.
      pose proof (total_burst_remove _ process (Hburst _ Hel) Hin) as Hrem.
      assert (Hb : 0 <= BurstDuration process).
      { apply Hel in Hin. by eapply Forall_forall in Hall as [_ ?]. }
      pose proof (total_burst_nonneg _
                    (Hburst (removeProcess (SJF.remaining v) process)
                       (fun q Hq => Hel q (proj1 (proj1 (removeProcess_elem _ _ _) Hq)))))
        as Hrem0.
      assert (Hadd : Int64.add (SJF.serviceTime v) (BurstDuration process)
                     = SJF.serviceTime v + BurstDuration process).
      { apply wrap_small.
        unfold Int64.in_range, Int64.min_int, Int64.max_int in *. lia. }
      assert (Hadd' : Int64.add (BurstDuration process) (SJF.serviceTime v)
                      = SJF.serviceTime v + BurstDuration process).
      { unfold Int64.add. rewrite Z.add_comm. exact Hadd. }
      split; simpl; rewrite ?Hadd, ?Hadd'; try lia.
      * intros q [Hq _]%removeProcess_elem. by apply Hel.
      * apply Forall_app. split; [|repeat constructor; simpl; lia].
        eapply Forall_impl; [exact Hpast|]. simpl. intros; lia.
      * apply StronglySorted_snoc; [done|]. exact Hpast.
      * apply Forall_app. split; [done|]. repeat constructor.
        exists process. split; [by apply Hel|]. by repeat split.
    + injection Hbody as <-.
      apply findShortestJob_None in Hfind.
      destruct (SJF.remaining v) as [|r0 rest] eqn:Hrem; [done|].
      simpl in Hfind.
      destruct (Z.ltb_spec (SJF.serviceTime v) (ArrivalTime r0)); [|done].
      assert (Hr0 : ArrivalTime r0 <= latest).
      { assert (Hin : r0 ∈ ps) by (apply Hel; left).
        eapply Forall_forall in Hall as [[_ ?] _]; done. }
      assert (Hadd : Int64.add (SJF.serviceTime v) 1 = SJF.serviceTime v + 1).
      { apply wrap_small.
        unfold Int64.in_range, Int64.min_int, Int64.max_int in *. lia. }
      split; simpl; rewrite ?Hadd, ?Hrem; try done; try lia.
      eapply Forall_impl; [exact Hpast|]. simpl. intros; lia.
Qed.

(** X9: on a batch whose arrival times lie between 0 and some latest time,
    whose bursts are not negative and for which that latest time plus all
    the bursts fits an [int64], the timeline that [SJFSchedule] returns
    never double-books the processor: every slice stops exactly its burst
    after it starts, with no wrap-around, not before the arrival of its
    process, and every slice stops before any later slice starts. *)
Theorem X9_sjf_no_double_booking (ps : list Process) (latest : Z)
    (fuel : nat) (out : Output) :
  SJF_bounded ps latest ->
  SJFSchedule fuel ps = Some (Ok out) ->
  Forall (slice_exact ps) (out_gantt out) /\
  StronglySorted (fun s1 s2 => Stop s1 <= Start s2) (out_gantt out).
Proof.
  intros Hbound Hrun. unfold SJFSchedule in Hrun.
  destruct (SJF.loop fuel (SJF.init ps)) as [[v|]|] eqn:Hloop; [|done..].
  injection Hrun as <-. simpl.
  eapply SJF_loop_reachable in Hloop as [Hreach _]; [|constructor].
  by destruct (SJF_time_inv_reachable ps latest v Hbound Hreach).
Qed.

Lemma X9_witness :
  SJF_bounded crafted_batch 2 /\
  exists out,
    SJFSchedule 3 crafted_batch = Some (Ok out) /\
    StronglySorted (fun s1 s2 => Stop s1 <= Start s2) (out_gantt out).
Proof.
  assert (Hb : SJF_bounded crafted_batch 2).
  { split; [lia|]. split; [repeat constructor; simpl; lia|].
    unfold Int64.max_int. simpl. lia. }
  split; [exact Hb|]. eexists. split; [reflexivity|].
  exact (proj2 (X9_sjf_no_double_booking crafted_batch 2 3 _ Hb eq_refl)).
Defined.

(** ** SJFPrioritySchedule: selection, non-preemption and the counters *)

Section SJFP_ticks.
Import SJFP.
Context {rt : GoRuntime}.
Variable ps : list Process1.

Lemma state_at_S (k : nat) :
  state_at ps (S k) = tick (caller_slice ps) (state_at ps k).
Proof. done. Qed.

Lemma tick_via_dispatched (k : nat) :
  state_at ps (S k) = advance (run_active (dispatched_at ps k)).
Proof. done. Qed.

(** Lines 195-206 leave [active] and the record it points to alone when a
    record is active. *)
Lemma dispatched_at_keeps_active (k : nat) (a : pointer) :
  active (state_at ps k) = Some a ->
  active (dispatched_at ps k) = Some a /\
  load (mem (dispatched_at ps k)) a = load (mem (state_at ps k)) a /\
  completed (dispatched_at ps k) = completed (state_at ps k) /\
  currentTime (dispatched_at ps k) = currentTime (state_at ps k).
Proof.
  intros Hact. unfold dispatched_at.
  destruct (arrive_spec ps _ (state_at_inv ps k))
    as (Hinv1 & _ & Ha1 & Hact1 & Hc1 & Ht1).
  destruct (sort_waiting_spec ps _ Hinv1) as (_ & _ & Ha2 & Hact2 & Hc2 & Ht2).
  set (v1 := arrive (caller_slice ps) (state_at ps k)) in *.
  set (v2 := sort_waiting v1) in *.
  assert (Hactive : active v2 = Some a) by by rewrite Hact2, Hact1.
  unfold select. rewrite Hactive. split; [done|].
  split; [|by rewrite Hc2, Hc1, Ht2, Ht1].
  unfold snap in Ha1, Ha2. simpl in Ha1, Ha2.
  rewrite Hact1, Hact in Ha2. rewrite Hact1, Hact in Ha1.
  simpl in Ha1, Ha2. injection Ha2 as Ha2. injection Ha1 as Ha1.
  change (mem v2) with (sort_in_place (mem v1) (waiting v1)). congruence.
Qed.

(** X10: a record that is active and has more than one tick of burst left
    stays active through the next tick, whatever arrives or waits: at the
    start of the following tick [active] is the same pointer, the burst of
    its record is one less and its other fields are unchanged, and no
    completion has been counted. *)
Theorem X10_sjfp_no_preemption (k : nat) (a : pointer) :
  let v := state_at ps k in
  let v' := state_at ps (S k) in
  active v = Some a ->
  Int64.sub (Burst (load (mem v) a)) 1 ≠ 0 ->
  active v' = Some a /\
  completed v' = completed v /\
  load (mem v') a
  = let x := load (mem v) a in
    mkProcess1 (Name x) (Int64.sub (Burst x) 1) (Arrival x) (Priority x)
               (Completed x) (Turnaround x) (Waiting x).
Proof.
  intros v v' Hact Hburst. unfold v'. rewrite tick_via_dispatched.
  destruct (dispatched_at_keeps_active k a Hact) as (Hd & Hload & Hc & _).
  destruct (dispatched_at_inv ps k) as [_ _ Hptr].
  destruct (Hptr a Hd) as (_ & Hcell & _).
  unfold run_active. rewrite Hd. cbv zeta. rewrite Hload.
  fold v. destruct (Z.eqb_spec (Int64.sub (Burst (load (mem v) a)) 1) 0);
    [done|].
  simpl. split; [done|]. split; [done|]. by apply load_store.
Qed.

(** X11: when no record is active at the start of a tick, line 204 makes
    active a record of least burst among the records left waiting and the
    records of the batch that are due, and takes it out of the waiting
    set; when there is no such record the tick stays idle. *)
Theorem X11_sjfp_selects_shortest (k : nat) :
  let v := state_at ps k in
  let d := dispatched_at ps k in
  let candidates :=
    elems (mem v) (waiting v) ++ filter (due (currentTime v)) ps in
  active v = None ->
  (candidates = [] -> active d = None) /\
  (candidates ≠ [] ->
   exists a,
     active d = Some a /\
     load (mem d) a ∈ candidates /\
     (forall y, y ∈ candidates -> Burst (load (mem d) a) <= Burst y) /\
     Permutation candidates (load (mem d) a :: elems (mem d) (waiting d))).
Proof.
  intros v d candidates Hact.
  destruct (arrive_spec ps _ (state_at_inv ps k)) as (Hinv1 & Hw1 & Ha1 & _).
  destruct (sort_waiting_spec ps _ Hinv1) as (Hinv2 & Hw2 & Ha2 & _).
  destruct (select_spec ps _ Hinv2) as (_ & Hsel).
  assert (Hs2 : sn_waiting (snap (sort_waiting
                                   (arrive (caller_slice ps) (state_at ps k))))
                = sort_Slice candidates).
  { by rewrite Hw2, Hw1. }
  assert (Hn2 : sn_active (snap (sort_waiting
                                  (arrive (caller_slice ps) (state_at ps k))))
                = None).
  { rewrite Ha2, Ha1. unfold snap. simpl. fold v. by rewrite Hact. }
  unfold select_view in Hsel. rewrite Hn2, Hs2 in Hsel.
  change (select (sort_waiting (arrive (caller_slice ps) (state_at ps k))))
    with d in Hsel.
  pose proof (sort_Slice_perm candidates) as Hperm.
  pose proof (sort_Slice_sorted candidates) as Hsorted.
  destruct (sort_Slice candidates) as [|x w] eqn:Hsort.
  - split.
    + intros _. assert (Hnone : sn_active (snap d) = None) by by rewrite Hsel.
      unfold snap in Hnone. simpl in Hnone. by destruct (active d).
    + intros Hne. exfalso. apply Hne. by apply Permutation_nil.
  - split; [intros Hnil; rewrite Hnil in Hperm; symmetry in Hperm;
            by apply Permutation_nil_cons in Hperm|].
    intros _.
    assert (Hsome : sn_active (snap d) = Some x) by by rewrite Hsel.
    assert (Hwait : sn_waiting (snap d) = w) by by rewrite Hsel.
    unfold snap in Hsome, Hwait. simpl in Hsome, Hwait.
    destruct (active d) as [a|]; [|done]. simpl in Hsome.
    injection Hsome as Hx. exists a. rewrite Hx, Hwait.
    split; [done|]. split; [|split].
    + rewrite <- Hperm. by left.
    + intros y Hy. rewrite <- Hperm in Hy.
      apply StronglySorted_inv in Hsorted as [_ Hall].
      apply elem_of_cons in Hy as [->|Hy]; [lia|].
      by eapply Forall_forall in Hall.
    + by symmetry.
Qed.
End SJFP_ticks.

Definition long_record : list SJFP.Process1 :=
  [SJFP.mkProcess1 "L" 3 0 0 false 0 0].

Lemma X10_witness :
  let v := state_at long_record 1 in
  let a := SJFP.mkPointer 2 0 in
  SJFP.active v = Some a /\
  Int64.sub (SJFP.Burst (SJFP.load (SJFP.mem v) a)) 1 ≠ 0 /\
  SJFP.active (state_at long_record 2) = Some a /\
  SJFP.completed (state_at long_record 2) = SJFP.completed v.
Proof.
  assert (Hact : SJFP.active (state_at long_record 1)
                 = Some (SJFP.mkPointer 2 0)) by reflexivity.
  assert (Hburst : Int64.sub (SJFP.Burst (SJFP.load
                      (SJFP.mem (state_at long_record 1))
                      (SJFP.mkPointer 2 0))) 1 ≠ 0) by (by vm_compute).
  split; [exact Hact|]. split; [exact Hburst|].
  destruct (X10_sjfp_no_preemption long_record 1 (SJFP.mkPointer 2 0)
              Hact Hburst) as (Ha & Hc & _).
  split; [exact Ha|exact Hc].
Defined.

Lemma X11_witness :
  let v := state_at two_records 0 in
  let d := dispatched_at two_records 0 in
  SJFP.active v = None /\
  SJFP.elems (SJFP.mem v) (SJFP.waiting v)
    ++ filter (due (SJFP.currentTime v)) two_records ≠ [] /\
  exists a,
    SJFP.active d = Some a /\
    forall y, y ∈ SJFP.elems (SJFP.mem v) (SJFP.waiting v)
                  ++ filter (due (SJFP.currentTime v)) two_records ->
              SJFP.Burst (SJFP.load (SJFP.mem d) a) <= SJFP.Burst y.
Proof.
  assert (Hact : SJFP.active (state_at two_records 0) = None) by reflexivity.
  assert (Hne : SJFP.elems (SJFP.mem (state_at two_records 0))
                  (SJFP.waiting (state_at two_records 0))
                ++ filter (due (SJFP.currentTime (state_at two_records 0)))
                     two_records ≠ []) by (by vm_compute).
  split; [exact Hact|]. split; [exact Hne|].
  destruct (proj2 (X11_sjfp_selects_shortest two_records 0 Hact) Hne)
    as (a & Ha & _ & Hmin & _).
  exists a. split; [exact Ha|exact Hmin].
Defined.

Section SJFP_counters.
Import SJFP.
Context {rt : GoRuntime}.
Variable ps : list Process1.

Lemma snap_state_at_S (k : nat) :
  snap (state_at ps (S k)) = tick_view ps (snap (state_at ps k)).
Proof. apply tick_spec, state_at_inv. Qed.

Lemma tick_view_counters (s : snapshot) :
  sn_time (tick_view ps s) = Int64.add (sn_time s) 1 /\
  (sn_completed (tick_view ps s) = sn_completed s \/
   sn_completed (tick_view ps s) = Int64.add (sn_completed s) 1) /\
  (length (sn_waiting s) + length (filter (due (sn_time s)) ps)
   <= S (length (sn_waiting (tick_view ps s))))%nat.
Proof.
  unfold tick_view. cbv zeta.
  pose proof (Permutation_length
                (sort_Slice_perm (sn_waiting s ++ filter (due (sn_time s)) ps)))
    as Hlen.
  rewrite length_app in Hlen.
  unfold select_view, run_view. simpl.
  destruct (sn_active s) as [x|]; simpl.
  - destruct (_ =? 0); simpl; (split; [done|]); (split; [tauto|lia]).
  - destruct (sort_Slice _) as [|x w]; simpl in *.
    + split; [done|]. split; [tauto|lia].
    + destruct (_ =? 0); simpl; (split; [done|]); (split; [tauto|lia]).
Qed.

Lemma state_at_time (k : nat) :
  currentTime (state_at ps k) = Int64.wrap (Z.of_nat k).
Proof.
  induction k as [|k IH]; [done|].
  change (currentTime (state_at ps (S k)))
    with (sn_time (snap (state_at ps (S k)))).
  rewrite snap_state_at_S.
  destruct (tick_view_counters (snap (state_at ps k))) as (-> & _).
  simpl. rewrite IH. unfold Int64.add. rewrite wrap_add_l. f_equal. lia.
Qed.

Lemma state_at_completed_step (k : nat) :
  completed (state_at ps (S k)) = completed (state_at ps k) \/
  completed (state_at ps (S k)) = Int64.add (completed (state_at ps k)) 1.
Proof.
  change (completed (state_at ps (S k)))
    with (sn_completed (snap (state_at ps (S k)))).
  rewrite snap_state_at_S.
  by destruct (tick_view_counters (snap (state_at ps k))) as (_ & ? & _).
Qed.

(** The loop leaves at the first tick count at which the test of line 194
    fails. *)
Lemma loop_exit (fuel k : nat) (v : vars) :
  loop fuel (caller_slice ps) (state_at ps k) = Some v ->
  exists j,
    v = state_at ps (k + j) /\ (j <= fuel)%nat /\
    Z.of_nat (length ps) <= completed v /\
    forall i, (i < j)%nat ->
      completed (state_at ps (k + i)) < Z.of_nat (length ps).
Proof.
  revert k. induction fuel as [|fuel IH]; intros k; simpl.
  - destruct (Z.ltb_spec (completed (state_at ps k)) (Z.of_nat (length ps)));
      [done|].
    intros [= <-]. exists 0%nat. rewrite Nat.add_0_r.
    split; [done|]. split; [done|]. split; [done|]. lia.
  - destruct (Z.ltb_spec (completed (state_at ps k)) (Z.of_nat (length ps)))
      as [Hlt|Hge].
    + intros Hloop. destruct (IH (S k) Hloop) as (j & -> & Hj & Hdone & Hbefore).
      exists (S j). replace (k + S j)%nat with (S k + j)%nat by lia.
      split; [done|]. split; [lia|]. split; [done|].
      intros [|i] Hi; [by rewrite Nat.add_0_r|].
      replace (k + S i)%nat with (S k + i)%nat by lia. apply Hbefore. lia.
    + intros [= <-]. exists 0%nat. rewrite Nat.add_0_r.
      split; [done|]. split; [lia|]. split; [done|]. lia.
Qed.

Lemma completed_bounds (j : nat) :
  Z.of_nat (length ps) <= Int64.max_int ->
  (forall i, (i < j)%nat -> completed (state_at ps i) < Z.of_nat (length ps)) ->
  0 <= completed (state_at ps j) <= Z.of_nat j /\
  completed (state_at ps j) <= Z.of_nat (length ps).
Proof.
  intros Hn. induction j as [|j IH]; intros Hbefore.
  - simpl. lia.
  - destruct IH as [Hj _]; [intros i Hi; apply Hbefore; lia|].
    pose proof (Hbefore j (Nat.lt_succ_diag_r j)) as Hlt.
    assert (Hadd : Int64.add (completed (state_at ps j)) 1
                   = completed (state_at ps j) + 1).
    { apply wrap_small.
      unfold Int64.in_range, Int64.min_int, Int64.max_int in *. lia. }
    destruct (state_at_completed_step j) as [->| ->]; rewrite ?Hadd; lia.
Qed.

(** X12: for a batch whose length fits an [int], a run of
    [SJFPrioritySchedule] that ends has counted exactly [len(processes)]
    completions.  It counts at most one per tick, so it has run at least
    that many ticks, and [currentTime], the divisor of the throughput, is
    the number of ticks run, in [int] arithmetic. *)
Theorem X12_sjfp_counters (fuel : nat) (v : vars) :
  Z.of_nat (length ps) <= Int64.max_int ->
  run fuel ps = Some v ->
  completed v = Z.of_nat (length ps) /\
  exists k,
    v = state_at ps k /\ (length ps <= k <= fuel)%nat /\
    currentTime v = Int64.wrap (Z.of_nat k).
Proof.
  intros Hn Hrun.
  destruct (loop_exit fuel 0 v Hrun) as (k & -> & Hk & Hdone & Hbefore).
  simpl in *. destruct (completed_bounds k Hn Hbefore) as [Hc Hle].
  split; [lia|]. exists k. split; [done|]. split; [lia|]. apply state_at_time.
Qed.

Lemma tick_view_waiting_upper (s : snapshot) :
  (length (sn_waiting (tick_view ps s))
   <= length (sn_waiting s) + length (filter (due (sn_time s)) ps))%nat.
Proof.
  unfold tick_view. cbv zeta.
  pose proof (Permutation_length
                (sort_Slice_perm (sn_waiting s ++ filter (due (sn_time s)) ps)))
    as Hlen.
  rewrite length_app in Hlen.
  unfold select_view, run_view. simpl.
  destruct (sn_active s) as [x|]; simpl.
  - destruct (_ =? 0); simpl; lia.
  - destruct (sort_Slice _) as [|x w]; simpl in *; [lia|].
    destruct (_ =? 0); simpl; lia.
Qed.

(** X13: when every record of the batch is due from tick 0 on (not marked
    completed, arrival time not positive), each tick appends a copy of
    every record to the waiting set and takes at most one entry out.  With
    [n] records the waiting set holds between [k * n - k] and [k * n]
    entries at the start of tick [k]; with two records or more that is at
    least [k], so from tick 1 on it is not empty and it keeps growing.
    With one record it can be empty. *)
Theorem X13_sjfp_waiting_grows (k : nat) :
  Forall (fun p => Completed p = false /\ Arrival p <= 0) ps ->
  Z.of_nat k <= Int64.max_int ->
  let held :=
    length (elems (mem (state_at ps k)) (waiting (state_at ps k))) in
  (k * length ps <= held + k)%nat /\
  (held <= k * length ps)%nat /\
  ((2 <= length ps)%nat -> (k <= held)%nat).
Proof.
  intros Hdue Hk held.
  assert (Hbounds : (k * length ps <= held + k)%nat /\
                    (held <= k * length ps)%nat).
  { unfold held. clear held. induction k as [|k IH]; [simpl; lia|].
    specialize (IH ltac:(lia)).
    change (elems (mem (state_at ps (S k))) (waiting (state_at ps (S k))))
      with (sn_waiting (snap (state_at ps (S k)))).
    rewrite snap_state_at_S.
    destruct (tick_view_counters (snap (state_at ps k))) as (_ & _ & Hgrow).
    pose proof (tick_view_waiting_upper (snap (state_at ps k))) as Hupper.
    assert (Hall : filter (due (sn_time (snap (state_at ps k)))) ps = ps).
    { simpl. rewrite state_at_time, wrap_small
        by (unfold Int64.in_range, Int64.min_int, Int64.max_int in *; lia).
      clear -Hdue. induction Hdue as [|p l [Hc Ha] _ IHl]; [done|].
      rewrite filter_cons_True by (split; [done|lia]). by rewrite IHl. }
    rewrite Hall in Hgrow, Hupper. simpl in Hgrow, Hupper, IH. simpl.
    lia. }
  destruct Hbounds as [Hlow Hup]. split; [done|]. split; [done|].
  intros Hn. nia.
Qed.

(** X14: when the batch is not empty and every record comes in marked
    completed, no record is ever let into the waiting set, no completion
    is counted, and the loop of [SJFPrioritySchedule] does not end, however
    many ticks it is given. *)
Theorem X14_sjfp_hangs_on_completed_batch (fuel : nat) :
  ps ≠ [] ->
  Forall (fun p => Completed p = true) ps ->
  run fuel ps = None.
Proof.
  intros Hne Hall.
  assert (Hnone : forall t, filter (due t) ps = []).
  { intros t. clear -Hall. induction Hall as [|p l Hp _ IHl]; [done|].
    rewrite filter_cons_False; [done|]. intros [Hc _]. congruence. }
  assert (Hidle : forall k,
            sn_waiting (snap (state_at ps k)) = [] /\
            sn_active (snap (state_at ps k)) = None /\
            sn_completed (snap (state_at ps k)) = 0).
  { induction k as [|k (Hw & Ha & Hc)]; [done|].
    rewrite snap_state_at_S. unfold tick_view. cbv zeta.
    rewrite Hw, Ha, Hc, Hnone. simpl.
    assert (Hsort : sort_Slice [] = []).
    { apply Permutation_nil. symmetry. apply sort_Slice_perm. }
    unfold select_view. simpl. by rewrite Hsort. }
  assert (Hloop : forall fuel k,
            loop fuel (caller_slice ps) (state_at ps k) = None).
  { clear fuel. induction fuel as [|fuel IH]; intros k; simpl.
    all: destruct (Hidle k) as (_ & _ & Hc); simpl in Hc; rewrite Hc.
    all: destruct (Z.ltb_spec 0 (Z.of_nat (length ps))) as [_|Hlen];
      [|destruct ps; [done|simpl in Hlen; lia]].
    - done.
    - apply (IH (S k)). }
  apply (Hloop fuel 0%nat).
Qed.
End SJFP_counters.

Lemma X12_witness :
  Z.of_nat (length short_and_long) <= Int64.max_int /\
  exists v,
    SJFP.run 2 short_and_long = Some v /\
    SJFP.completed v = Z.of_nat (length short_and_long) /\
    exists k, v = state_at short_and_long k /\
              (length short_and_long <= k <= 2)%nat.
Proof.
  assert (Hn : Z.of_nat (length short_and_long) <= Int64.max_int).
  { unfold Int64.max_int. simpl. lia. }
  split; [exact Hn|].
  destruct (SJFP.run 2 short_and_long) as [v|] eqn:Hrun;
    [|by vm_compute in Hrun].
  exists v. split; [reflexivity|].
  destruct (X12_sjfp_counters short_and_long 2 v Hn Hrun)
    as (Hc & k & Hk & Hle & _).
  split; [exact Hc|]. exists k. split; [exact Hk|exact Hle].
Defined.

Lemma X13_witness :
  Forall (fun p => SJFP.Completed p = false /\ SJFP.Arrival p <= 0) two_records /\
  Z.of_nat 3 <= Int64.max_int /\
  (2 <= length two_records)%nat /\
  (3 <= length (SJFP.elems (SJFP.mem (state_at two_records 3))
                           (SJFP.waiting (state_at two_records 3)))
     <= 3 * length two_records)%nat.
Proof.
  assert (Hdue : Forall (fun p => SJFP.Completed p = false /\ SJFP.Arrival p <= 0)
                   two_records).
  { repeat constructor; simpl; lia. }
  assert (Hk : Z.of_nat 3 <= Int64.max_int).
  { unfold Int64.max_int. lia. }
  assert (Hn : (2 <= length two_records)%nat) by (simpl; lia).
  split; [exact Hdue|]. split; [exact Hk|]. split; [exact Hn|].
  destruct (X13_sjfp_waiting_grows two_records 3 Hdue Hk) as (_ & Hup & Hlow).
  split; [exact (Hlow Hn)|exact Hup].
Defined.

Definition completed_record : list SJFP.Process1 :=
  [SJFP.mkProcess1 "D" 1 0 0 true 0 0].

Lemma X14_witness :
  completed_record ≠ [] /\
  Forall (fun p => SJFP.Completed p = true) completed_record /\
  SJFP.run 5 completed_record = None.
Proof.
  assert (Hne : completed_record ≠ []) by discriminate.
  assert (Hall : Forall (fun p => SJFP.Completed p = true) completed_record).
  { repeat constructor. }
  split; [exact Hne|]. split; [exact Hall|].
  exact (X14_sjfp_hangs_on_completed_batch completed_record 5 Hne Hall).
Defined.

(** ** SJFPrioritySchedule: only the shortest record runs *)

(** A record with its [Burst] field replaced. *)
Definition with_burst (x : SJFP.Process1) (b : Z) : SJFP.Process1 :=
  SJFP.mkProcess1 (SJFP.Name x) b (SJFP.Arrival x) (SJFP.Priority x)
                  (SJFP.Completed x) (SJFP.Turnaround x) (SJFP.Waiting x).

Section SJFP_shortest.
Import SJFP.
Context {rt : GoRuntime}.
Variable ps : list Process1.
Variable shortest : Process1.
Hypothesis Hin : shortest ∈ ps.
Hypothesis Hdue : Completed shortest = false /\ Arrival shortest <= 0.
Hypothesis Hburst : 1 <= Burst shortest.
Hypothesis Hleast :
  forall p, p ∈ ps -> p = shortest \/ Burst shortest < Burst p.
Hypothesis Hfits : Z.of_nat (length ps) * Burst shortest <= Int64.max_int.

(** Tick [k] is tick [r] of the [q]-th run of the shortest record. *)
Definition in_run (s : snapshot) (k : nat) (q r : Z) : Prop :=
  Z.of_nat k = q * Burst shortest + r /\ 0 <= r < Burst shortest /\ 0 <= q /\
  Forall (fun x => x ∈ ps) (sn_waiting s) /\
  sn_completed s = q /\
  sn_time s = Z.of_nat k /\
  sn_active s
  = if r =? 0 then None else Some (with_burst shortest (Burst shortest - r)).

Lemma with_burst_self : with_burst shortest (Burst shortest) = shortest.
Proof. by destruct shortest. Qed.

Lemma in_run_step (s : snapshot) (k : nat) (q r : Z) :
  Z.of_nat k < Int64.max_int ->
  in_run s k q r ->
  exists q' r', in_run (tick_view ps s) (S k) q' r' /\
                (q' = q /\ r' = r + 1 \/ q' = q + 1 /\ r' = 0).
Proof.
  intros Hk (Hkqr & Hr & Hq & Hw & Hc & Ht & Ha).
  assert (Hb : Burst shortest <= Int64.max_int).
  { destruct ps as [|p l]; [by apply elem_of_nil in Hin|].
    simpl length in Hfits. nia. }
  unfold tick_view. cbv zeta.
  set (w1 := sort_Slice (sn_waiting s ++ filter (due (sn_time s)) ps)).
  assert (Hperm : Permutation w1 (sn_waiting s ++ filter (due (sn_time s)) ps))
    by apply sort_Slice_perm.
  assert (Hw1 : Forall (fun x => x ∈ ps) w1).
  { rewrite Hperm. apply Forall_app. split; [done|].
    apply Forall_forall. by intros x [_ ?]%list_elem_of_filter. }
  assert (Hcand : shortest ∈ w1).
  { rewrite Hperm, elem_of_app. right. apply list_elem_of_filter.
    split; [|done]. destruct Hdue. split; [done|]. rewrite Ht. lia. }
  assert (Htime : Int64.add (sn_time s) 1 = Z.of_nat (S k)).
  { rewrite Ht. unfold Int64.add. rewrite wrap_small
      by (unfold Int64.in_range, Int64.min_int, Int64.max_int in *; lia). lia. }
  assert (Hcount : Int64.add q 1 = q + 1).
  { apply wrap_small.
    unfold Int64.in_range, Int64.min_int, Int64.max_int in *. nia. }
  assert (Hrun : forall b, 1 <= b <= Burst shortest ->
            Z.of_nat k = q * Burst shortest + (Burst shortest - b) ->
            forall w, Forall (fun x => x ∈ ps) w ->
            let s2 := run_view (mkSnapshot w (Some (with_burst shortest b))
                                  (sn_completed s) (sn_time s)) in
            exists q' r',
              in_run (mkSnapshot (sn_waiting s2) (sn_active s2)
                        (sn_completed s2) (Int64.add (sn_time s2) 1))
                     (S k) q' r' /\
              (q' = q /\ r' = Burst shortest - b + 1 \/
               q' = q + 1 /\ r' = 0)).
  { intros b Hbb Hkb w Hww. unfold run_view. simpl.
    assert (Hsub : Int64.sub b 1 = b - 1).
    { apply wrap_small.
      unfold Int64.in_range, Int64.min_int, Int64.max_int in *. lia. }
    rewrite Hsub. destruct (Z.eqb_spec (b - 1) 0) as [Hz|Hnz]; simpl.
    - exists (q + 1), 0. split; [|by right].
      unfold in_run. simpl. rewrite Hc, Hcount, Htime.
      repeat split; try done; try lia.
    - exists q, (Burst shortest - b + 1). split; [|by left].
      unfold in_run. simpl. rewrite Htime, Hc.
      repeat split; try done; try lia.
      destruct (Z.eqb_spec (Burst shortest - b + 1) 0); [lia|].
      unfold with_burst. simpl. do 2 f_equal. lia. }
  destruct (Z.eqb_spec r 0) as [->|Hr0].
  - rewrite Ha. unfold select_view. simpl.
    destruct w1 as [|x w] eqn:Hsort; [by apply elem_of_nil in Hcand|].
    assert (Hx : x = shortest).
    { pose proof (sort_Slice_sorted
                    (sn_waiting s ++ filter (due (sn_time s)) ps)) as Hsorted.
      fold w1 in Hsorted. rewrite Hsort in Hsorted.
      apply StronglySorted_inv in Hsorted as [_ Hall].
      apply Forall_cons in Hw1 as [Hxps _].
      destruct (Hleast x Hxps) as [|Hlt]; [done|].
      apply elem_of_cons in Hcand as [Heq|Hcand]; [done|].
      eapply Forall_forall in Hall; [|exact Hcand]. simpl in Hall. lia. }
    subst x. apply Forall_cons in Hw1 as [_ Hw'].
    rewrite <- with_burst_self.
    destruct (Hrun (Burst shortest) ltac:(lia) ltac:(lia) w Hw')
      as (q' & r' & Hinv & Hcases).
    exists q', r'. split; [done|]. lia.
  - rewrite Ha. unfold select_view. simpl.
    destruct (Hrun (Burst shortest - r) ltac:(lia) ltac:(lia) w1 Hw1)
      as (q' & r' & Hinv & Hcases).
    exists q', r'. split; [done|]. lia.
Qed.

Lemma in_run_state_at (k : nat) :
  Z.of_nat k <= Int64.max_int ->
  exists q r, in_run (snap (state_at ps k)) k q r.
Proof.
  induction k as [|k IH]; intros Hk.
  - exists 0, 0. unfold in_run. simpl. repeat split; try done; try lia.
  - destruct IH as (q & r & Hinv); [lia|].
    destruct (in_run_step _ k q r ltac:(lia) Hinv) as (q' & r' & Hinv' & _).
    exists q', r'. by rewrite snap_state_at_S.
Qed.
Lemma in_run_unique (s : snapshot) (k : nat) (q r : Z) :
  in_run s k q r ->
  q = Z.of_nat k / Burst shortest /\ r = Z.of_nat k mod Burst shortest.
Proof.
  intros (Hk & Hr & _). split.
  - apply (Z.div_unique _ _ q r); [lia|]. lia.
  - apply (Z.mod_unique _ _ q r); [lia|]. lia.
Qed.

(** The loop started at tick [k] runs on until the first tick [last] at
    which the test of line 194 fails, and needs [last - k] iterations. *)
Lemma loop_until (last fuel k : nat) :
  (forall i, (i < last)%nat ->
     completed (state_at ps i) < Z.of_nat (length ps)) ->
  Z.of_nat (length ps) <= completed (state_at ps last) ->
  (k <= last)%nat ->
  loop fuel (caller_slice ps) (state_at ps k)
  = if (last - k <=? fuel)%nat then Some (state_at ps last) else None.
Proof.
  intros Hbefore Hlast. revert k.
  induction fuel as [|fuel IH]; intros k Hk; simpl.
  - destruct (Nat.eq_dec k last) as [->|Hne].
    + rewrite Nat.sub_diag. simpl.
      by destruct (Z.ltb_spec (completed (state_at ps last))
                              (Z.of_nat (length ps))); [lia|].
    + pose proof (Hbefore k ltac:(lia)) as Hlt.
      apply Z.ltb_lt in Hlt. rewrite Hlt.
      by destruct (Nat.leb_spec (last - k) 0); [lia|].
  - destruct (Nat.eq_dec k last) as [->|Hne].
    + rewrite Nat.sub_diag. simpl.
      by destruct (Z.ltb_spec (completed (state_at ps last))
                              (Z.of_nat (length ps))); [lia|].
    + pose proof (Hbefore k ltac:(lia)) as Hlt.
      apply Z.ltb_lt in Hlt. rewrite Hlt.
      change (tick (caller_slice ps) (state_at ps k))
        with (state_at ps (S k)).
      rewrite (IH (S k)) by lia.
      destruct (Nat.leb_spec (last - S k) fuel),
               (Nat.leb_spec (last - k) (S fuel)); try done; lia.
Qed.

(** X15: when one record of the batch that is due from tick 0 on has a
    burst strictly below that of every other record, it is the only record
    [SJFPrioritySchedule] ever runs.  With [b] its burst and [n] the length
    of the batch, at the start of tick [k] the driver has counted [k / b]
    completions and its active record is a copy of that record with
    [k mod b] units of burst used up; the loop ends after exactly [n * b]
    ticks, and no sooner. *)
Theorem X15_sjfp_only_shortest_runs :
  let b := Burst shortest in
  let last := (length ps * Z.to_nat b)%nat in
  (forall k, (k <= last)%nat ->
     completed (state_at ps k) = Z.of_nat k / b /\
     load (mem (state_at ps k)) <$> active (state_at ps k)
     = if Z.of_nat k mod b =? 0 then None
       else Some (with_burst shortest (b - Z.of_nat k mod b))) /\
  (forall fuel,
     run fuel ps
     = if (last <=? fuel)%nat then Some (state_at ps last) else None).
Proof.
  intros b last.
  assert (Hlast : Z.of_nat last = Z.of_nat (length ps) * b).
  { unfold last. rewrite Nat2Z.inj_mul, Z2Nat.id by (unfold b; lia). done. }
  assert (Hstate : forall k, (k <= last)%nat ->
            completed (state_at ps k) = Z.of_nat k / b /\
            load (mem (state_at ps k)) <$> active (state_at ps k)
            = if Z.of_nat k mod b =? 0 then None
              else Some (with_burst shortest (b - Z.of_nat k mod b))).
  { intros k Hk.
    destruct (in_run_state_at k) as (q & r & Hinv); [unfold b in *; lia|].
    destruct (in_run_unique _ _ _ _ Hinv) as [-> ->].
    destruct Hinv as (_ & _ & _ & _ & Hc & _ & Ha). by split. }
  split; [exact Hstate|].
  intros fuel. unfold run.
  change (init ps) with (state_at ps 0).
  rewrite (loop_until last fuel 0); [by rewrite Nat.sub_0_r| | |lia].
  - intros i Hi. destruct (Hstate i ltac:(lia)) as [-> _].
    apply Z.div_lt_upper_bound; [unfold b; lia|]. lia.
  - destruct (Hstate last ltac:(lia)) as [-> _].
    rewrite Hlast, Z.div_mul by (unfold b; lia). lia.
Qed.
End SJFP_shortest.

Lemma X15_witness :
  let shortest := SJFP.mkProcess1 "A" 1 0 0 false 0 0 in
  shortest ∈ short_and_long /\
  (SJFP.Completed shortest = false /\ SJFP.Arrival shortest <= 0) /\
  1 <= SJFP.Burst shortest /\
  (forall p, p ∈ short_and_long ->
             p = shortest \/ SJFP.Burst shortest < SJFP.Burst p) /\
  Z.of_nat (length short_and_long) * SJFP.Burst shortest <= Int64.max_int /\
  SJFP.run 2 short_and_long = Some (state_at short_and_long 2) /\
  SJFP.run 1 short_and_long = None.
Proof.
  intros shortest.
  assert (Hin : shortest ∈ short_and_long)
    by (unfold short_and_long; rewrite elem_of_cons; by left).
  assert (Hdue : SJFP.Completed shortest = false /\ SJFP.Arrival shortest <= 0)
    by (simpl; split; [reflexivity|lia]).
  assert (Hburst : 1 <= SJFP.Burst shortest) by (simpl; lia).
  assert (Hleast : forall p, p ∈ short_and_long ->
            p = shortest \/ SJFP.Burst shortest < SJFP.Burst p).
  { intros p Hp. unfold short_and_long in Hp.
    rewrite !elem_of_cons, elem_of_nil in Hp.
    destruct Hp as [->|[->|[]]]; [by left|right; simpl; lia]. }
  assert (Hfits : Z.of_nat (length short_and_long) * SJFP.Burst shortest
                  <= Int64.max_int) by (unfold Int64.max_int; simpl; lia).
  split; [exact Hin|]. split; [exact Hdue|]. split; [exact Hburst|].
  split; [exact Hleast|]. split; [exact Hfits|].
  pose proof (X15_sjfp_only_shortest_runs short_and_long shortest
                Hin Hdue Hburst Hleast Hfits) as [_ Hrun].
  split; [exact (Hrun 2%nat)|exact (Hrun 1%nat)].
Defined.

(** ** Turnaround and completion in the tables; the end of the tick loop *)

(** X16: in the tables of [FCFSSchedule] and [SJFSchedule] every row
    reports a turnaround equal to its completion time minus its arrival
    time, in the [int64] arithmetic of the program.  FCFS has such a row
    for every process, whatever its fields are; for SJF the run returns
    and the relation holds on every row when the arrival times are not
    negative. *)
Theorem X16_table_turnaround_is_completion_minus_arrival (ps : list Process) :
  (forall i p, ps !! i = Some p ->
     exists r, out_schedule (FCFSSchedule ps) !! i = Some (Some r) /\
       row_arrival r = ArrivalTime p /\
       row_turnaround r = Int64.sub (row_completion r) (row_arrival r)) /\
  (Forall well_typed ps ->
   Forall (fun p => 0 <= ArrivalTime p) ps ->
   (exists fuel res, SJFSchedule fuel ps = Some res) /\
   (forall fuel out i r,
      SJFSchedule fuel ps = Some (Ok out) ->
      out_schedule out !! i = Some (Some r) ->
      row_turnaround r = Int64.sub (row_completion r) (row_arrival r))).
Proof.
  split.
  - intros i p Hp. unfold FCFSSchedule. simpl.
    destruct (FCFS_loop_row ps 0 i p (FCFS.init (length ps)) Hp)
      as (r & Hr & (_ & _ & _ & Harr) & Ht & Hc).
    { simpl. by rewrite length_replicate. }
    exists r. split; [done|]. split; [done|].
    by rewrite Ht, Hc, Harr, sub_add_add_cancel.
  - intros Hwt Hnonneg. split; [by apply SJFSchedule_terminates|].
    intros fuel out i r Hrun Hr. unfold SJFSchedule in Hrun.
    destruct (SJF.loop fuel (SJF.init ps)) as [[v|]|] eqn:Hloop; [|done..].
    injection Hrun as <-. simpl in Hr.
    apply SJF_run_inv in Hloop as [[_ _ _ _ _ Hrows] _]; [|done].
    destruct (Hrows i r Hr) as (p & st & Hp & Hst & Hap & -> & _).
    eapply Forall_forall in Hnonneg; [|done]. simpl.
    unfold arrived, Int64.in_range, Int64.min_int, Int64.max_int in *.
    assert (Hw : Int64.sub st (ArrivalTime p) = st - ArrivalTime p).
    { apply wrap_small.
      unfold Int64.in_range, Int64.min_int, Int64.max_int. lia. }
    rewrite Hw. destruct (Z.ltb_spec (st - ArrivalTime p) 0); [lia|].
    unfold Int64.sub, Int64.add. rewrite wrap_sub_l. f_equal. lia.
Qed.

Lemma X16_witness :
  Forall well_typed reversed_batch /\
  Forall (fun p => 0 <= ArrivalTime p) reversed_batch /\
  exists out r,
    SJFSchedule 2 reversed_batch = Some (Ok out) /\
    out_schedule out !! 0%nat = Some (Some r) /\
    row_turnaround r = Int64.sub (row_completion r) (row_arrival r).
Proof.
  assert (Hwt : Forall well_typed reversed_batch).
  { repeat constructor; apply well_typed_small; simpl; lia. }
  assert (Hnn : Forall (fun p => 0 <= ArrivalTime p) reversed_batch).
  { repeat constructor; simpl; lia. }
  split; [exact Hwt|]. split; [exact Hnn|].
  eexists _, _. split; [reflexivity|]. split; [reflexivity|].
  exact (proj2 (proj2 (X16_table_turnaround_is_completion_minus_arrival
                         reversed_batch) Hwt Hnn)
           2%nat _ 0%nat _ eq_refl eq_refl).
Defined.

(** X17: on a batch whose length fits an [int] and whose records come in
    not marked completed, with a positive burst and an [int] arrival time,
    the tick loop of [SJFPrioritySchedule] ends: some number of ticks is
    enough, and the report is the same for every larger number. *)
Theorem X17_sjfp_tick_loop_ends `{SJFP.GoRuntime} (ps : list SJFP.Process1) :
  Forall valid1 ps ->
  Z.of_nat (length ps) <= Int64.max_int ->
  exists ticks rep,
    forall fuel, (ticks <= fuel)%nat ->
      SJFPrioritySchedule fuel ps = Some rep.
Proof.
  intros Hvalid Hn.
  destruct (SJFP_run_terminates ps Hvalid Hn) as (ticks & v & Hrun).
  exists ticks, (SJFP.finish (SJFP.caller_slice ps) v). intros fuel Hfuel.
  unfold SJFPrioritySchedule, SJFP.run in *.
  by rewrite (SJFP_loop_more_fuel ticks fuel _ _ v Hrun Hfuel).
Qed.

Lemma X17_witness :
  Forall valid1 one_record /\
  Z.of_nat (length one_record) <= Int64.max_int /\
  exists ticks rep,
    forall fuel, (ticks <= fuel)%nat ->
      SJFPrioritySchedule fuel one_record = Some rep.
Proof.
  assert (Hn : Z.of_nat (length one_record) <= Int64.max_int).
  { unfold Int64.max_int. simpl. lia. }
  split; [exact one_record_valid|]. split; [exact Hn|].
  exact (X17_sjfp_tick_loop_ends one_record one_record_valid Hn).
Defined.
